(** * TFDataSet: the dataset pipeline builder of [tf_dataset.py]

    The class sequences calls to the dataset operators of TensorFlow's
    [contrib.data] and fills in their parameters.  A [Dataset] object is a
    description of a pipeline, so the embedding has two layers:

    - [Module TF]: the pipeline descriptions the class builds (one constructor
      per operator it calls, with the arguments it passes) and the streams of
      elements those descriptions denote;
    - the methods of [TFDataSet] ([__init__], [read], [_map],
      [_count_num_records], [get_size]) written in a small monad that threads
      the instance and raises Python exceptions. *)

From Stdlib Require Import String ZArith Bool Arith Lia List Permutation.
Import ListNotations.
#[local] Set Warnings "-register-all".
Local Open Scope string_scope.
Local Open Scope list_scope.
Local Open Scope Z_scope.

(** ** Python exceptions seen by the class *)

Inductive exn : Type :=
| OutOfRangeError                       (* tensorflow errors_impl.OutOfRangeError *)
| ValueError (msg : string)
| NotImplementedError (msg : string)
| AttributeError (msg : string)
| TypeError (msg : string)
| OpError (msg : string).               (* any other failure of the framework *)

Definition is_OutOfRangeError (e : exn) : bool :=
  match e with OutOfRangeError => true | _ => false end.



Definition is_AttributeError (e : exn) : bool :=
  match e with AttributeError _ => true | _ => false end.

Definition is_TypeError (e : exn) : bool :=
  match e with TypeError _ => true | _ => false end.

(** ** The framework *)

Module TF.

(** Values carried by a stream: string scalars (file names, serialized
    records), int64 and bool scalars, the pairs made by [enumerate], and the
    groups made by [batch]. *)
Inductive value : Type :=
| VStr (s : string)
| VInt (z : Z)
| VBool (b : bool)
| VPair (a b : value)
| VBatch (vs : list value).

(** The reader classes a [TFDataSet] can be configured with. *)
Inductive DatasetClass : Type :=
| TextLineDataset
| TFRecordDataset
| FixedLengthRecordDataset.

(** What lies outside the program: the processor count, the file system as
    the readers see it, and the random draws of the shuffle operator. *)
Record World : Type := {
  cpu_count : Z;                                   (* multiprocessing.cpu_count() *)
  matching_files : string -> list string;          (* glob result, in listing order *)
  file_records : DatasetClass -> string -> list string * option exn;
                                                   (* records of a file; [Some e] when
                                                      reading fails with [e] after them *)
  random_draw : nat -> nat                         (* k-th draw of the shuffle buffer *)
}.

(** Functions handed to [filter] and [map]. *)
Inductive Fn : Type :=
| filter_fn (num_workers index : Z)     (* the closure filter_fn, with the
                                           task_spec fields it refers to *)
| TakeElem                              (* lambda _, elem: elem *)
| BoundMethod (f : value -> exn + value).
                                        (* a method bound to its instance: self._map *)

(** Pipeline descriptions: one constructor per operator called by the class. *)
Inductive Dataset : Type :=
| ListFiles (file_pattern : string)                                  (* Dataset.list_files *)
| Repeat (d : Dataset) (count : option Z)                            (* .repeat *)
| Interleave (d : Dataset) (map_func : DatasetClass)
             (cycle_length block_length : Z)                         (* .interleave *)
| Reader (cls : DatasetClass) (filenames : list value)               (* dataset_class(files) *)
| Enumerate (d : Dataset)                                            (* .enumerate *)
| Filter (d : Dataset) (predicate : Fn)                              (* .filter *)
| Map (d : Dataset) (map_func : Fn)
      (num_threads output_buffer_size : option Z)                    (* .map *)
| Shuffle (d : Dataset) (buffer_size : Z)                            (* .shuffle *)
| Batch (d : Dataset) (batch_size : Z).                              (* .batch *)

(** The handle returned by [make_one_shot_iterator().get_next()]. *)
Inductive NextElement : Type :=
| GetNext (d : Dataset).

(** How the enumeration of a stream stops: the stream is exhausted, an
    operator fails, or the stream goes on beyond the horizon up to which a
    never-ending [repeat] is unrolled. *)
Inductive ending : Type :=
| EndOfSequence
| Failure (e : exn)
| Beyond.

Definition run : Type := (list value * ending)%type.

Definition apply_fn (f : Fn) (v : value) : exn + value :=
  match f, v with
  | filter_fn num_workers index, VPair (VInt elem_index) _ =>
      if num_workers =? 0 then inl (OpError "Integer division by zero")
      else
        let mod_result := elem_index mod num_workers in       (* math_ops.mod *)
        inr (VBool (mod_result =? index))                     (* math_ops.equal *)
  | filter_fn _ _, _ => inl (OpError "filter_fn expects an (index, element) pair")
  | TakeElem, VPair _ elem => inr elem
  | TakeElem, _ => inl (OpError "lambda expects an (index, element) pair")
  | BoundMethod f, _ => f v
  end.

(** A representative element of a dataset, of the structure its elements
    have; [map] and [filter] call their function once on it when the
    operator is constructed. *)
Fixpoint placeholder (d : Dataset) : value :=
  match d with
  | ListFiles _ => VStr ""
  | Repeat d' _ => placeholder d'
  | Interleave _ _ _ _ => VStr ""
  | Reader _ _ => VStr ""
  | Enumerate d' => VPair (VInt 0) (placeholder d')
  | Filter d' _ => placeholder d'
  | Map d' f _ _ =>
      match apply_fn f (placeholder d') with
      | inr v => v
      | inl _ => VStr ""
      end
  | Shuffle d' _ => placeholder d'
  | Batch d' _ => VBatch [placeholder d']
  end.

(** *** Streams denoted by the operators *)

Definition stop_of (failure : option exn) : ending :=
  match failure with
  | None => EndOfSequence
  | Some e => Failure e
  end.

Definition open_file (w : World) (cls : DatasetClass) (filename : value) : run :=
  match filename with
  | VStr f => let '(recs, failure) := file_records w cls f in
              (List.map VStr recs, stop_of failure)
  | _ => ([], Failure (OpError "file name is not a string"))
  end.

(** Files read one after the other. *)
Fixpoint read_files (w : World) (cls : DatasetClass) (filenames : list value)
         (after : ending) : run :=
  match filenames with
  | [] => ([], after)
  | f :: rest =>
      let '(recs, st) := open_file w cls f in
      match st with
      | EndOfSequence =>
          let '(more, e) := read_files w cls rest after in (recs ++ more, e)
      | _ => (recs, st)
      end
  end.

Fixpoint cycle (n : nat) (xs : list value) : list value :=
  match n with
  | O => []
  | S n' => xs ++ cycle n' xs
  end.

Definition repeat_run (horizon : nat) (count : option Z) (r : run) : run :=
  let forever :=
    match count with
    | None => true
    | Some c => c <? 0
    end in
  match count with
  | Some 0 => ([], EndOfSequence)
  | _ =>
      match r with
      | (xs, EndOfSequence) =>
          if forever then
            match xs with
            | [] => ([], EndOfSequence)
            | _ :: _ => (cycle horizon xs, Beyond)
            end
          else
            match count with
            | Some c => (cycle (Z.to_nat c) xs, EndOfSequence)
            | None => (xs, EndOfSequence)
            end
      | (xs, e) => (xs, e)
      end
  end.

Fixpoint enumerate_from (i : Z) (xs : list value) : list value :=
  match xs with
  | [] => []
  | x :: rest => VPair (VInt i) x :: enumerate_from (i + 1) rest
  end.

Fixpoint filter_run (f : Fn) (xs : list value) (after : ending) : run :=
  match xs with
  | [] => ([], after)
  | x :: rest =>
      match apply_fn f x with
      | inr (VBool true) =>
          let '(kept, e) := filter_run f rest after in (x :: kept, e)
      | inr (VBool false) => filter_run f rest after
      | inr _ => ([], Failure (OpError "predicate must return a bool"))
      | inl e => ([], Failure e)
      end
  end.

Fixpoint map_run (f : Fn) (xs : list value) (after : ending) : run :=
  match xs with
  | [] => ([], after)
  | x :: rest =>
      match apply_fn f x with
      | inr y => let '(ys, e) := map_run f rest after in (y :: ys, e)
      | inl e => ([], Failure e)
      end
  end.

(** [shuffle]: a buffer of [b] elements is kept full from the input; each
    output is a random pick from the buffer.  The buffer is refilled before
    every pick, so a pick needs the input to deliver, to have ended, or the
    buffer to be full already. *)
Fixpoint refill (room : nat) (buf input : list value) : list value * list value :=
  match room, input with
  | S room', x :: rest => refill room' (buf ++ [x]) rest
  | _, _ => (buf, input)
  end.

Fixpoint remove_nth (i : nat) (xs : list value) : list value :=
  match i, xs with
  | _, [] => []
  | O, _ :: rest => rest
  | S i', x :: rest => x :: remove_nth i' rest
  end.

Fixpoint shuffle_go (w : World) (b : nat) (n k : nat) (buf input : list value)
         (after : ending) : run :=
  match n with
  | O => ([], after)
  | S n' =>
      let '(buf1, input1) := refill (b - length buf) buf input in
      let starved := (length buf1 <? b)%nat in
      match after, starved with
      | Failure e, true => ([], Failure e)
      | Beyond, true => ([], Beyond)
      | _, _ =>
          match buf1 with
          | [] => ([], after)
          | x0 :: _ =>
              let i := (random_draw w k mod length buf1)%nat in
              let '(out, e) :=
                shuffle_go w b n' (S k) (remove_nth i buf1) input1 after in
              (nth i buf1 x0 :: out, e)
          end
      end
  end.

Definition shuffle_run (w : World) (buffer_size : Z) (r : run) : run :=
  if buffer_size <=? 0
  then ([], Failure (OpError "buffer_size must be greater than zero"))
  else let '(xs, after) := r in
       shuffle_go w (Z.to_nat buffer_size) (S (length xs)) 0 [] xs after.

(** [batch]: consecutive groups of [b]; a shorter last group is delivered
    only when the input ends normally. *)
Fixpoint batch_go (b : nat) (n : nat) (xs : list value) (after : ending) : run :=
  match n with
  | O => ([], after)
  | S n' =>
      if (length xs <? b)%nat then
        match after, xs with
        | EndOfSequence, _ :: _ => ([VBatch xs], EndOfSequence)
        | _, _ => ([], after)
        end
      else
        let '(out, e) := batch_go b n' (skipn b xs) after in
        (VBatch (firstn b xs) :: out, e)
  end.

Definition batch_run (batch_size : Z) (r : run) : run :=
  if batch_size <=? 0
  then ([], Failure (OpError "Batch size must be greater than zero"))
  else let '(xs, after) := r in
       batch_go (Z.to_nat batch_size) (S (length xs)) xs after.

(** [interleave]: [c] slots, visited round-robin; an open slot gives up to
    [b] consecutive records per visit, an exhausted slot is closed, and an
    empty slot is filled with a reader over the next input file. *)
Definition slot : Type := option run.

Fixpoint set_slot (i : nat) (s : slot) (slots : list slot) : list slot :=
  match i, slots with
  | _, [] => []
  | O, _ :: rest => s :: rest
  | S i', x :: rest => x :: set_slot i' s rest
  end.

Definition is_empty_slot (s : slot) : bool :=
  match s with None => true | Some _ => false end.

Fixpoint interleave_go (w : World) (cls : DatasetClass) (c b : nat) (fuel : nat)
         (slots : list slot) (ci bi : nat)
         (input : list value) (input_stop : ending) (end_of_input : bool) : run :=
  match fuel with
  | O => ([], Beyond)
  | S fuel' =>
      if end_of_input && forallb is_empty_slot slots then ([], EndOfSequence)
      else
        match nth ci slots None with
        | Some (x :: rest, st) =>
            let slots' := set_slot ci (Some (rest, st)) slots in
            let '(out, e) :=
              if (S bi =? b)%nat
              then interleave_go w cls c b fuel' slots' (S ci mod c)%nat 0%nat
                                 input input_stop end_of_input
              else interleave_go w cls c b fuel' slots' ci (S bi)
                                 input input_stop end_of_input in
            (x :: out, e)
        | Some ([], EndOfSequence) =>
            interleave_go w cls c b fuel' (set_slot ci None slots) (S ci mod c)%nat 0%nat
                          input input_stop end_of_input
        | Some ([], st) => ([], st)
        | None =>
            if end_of_input
            then interleave_go w cls c b fuel' slots (S ci mod c)%nat 0%nat
                               input input_stop end_of_input
            else
              match input with
              | f :: more =>
                  interleave_go w cls c b fuel'
                                (set_slot ci (Some (open_file w cls f)) slots) ci bi
                                more input_stop end_of_input
              | [] =>
                  match input_stop with
                  | EndOfSequence =>
                      interleave_go w cls c b fuel' slots (S ci mod c)%nat 0%nat
                                    [] input_stop true
                  | st => ([], st)
                  end
              end
        end
  end.

Definition total_records (w : World) (cls : DatasetClass) (input : list value) : nat :=
  fold_right (fun f acc => (length (fst (open_file w cls f)) + acc)%nat) 0%nat input.

Definition interleave_run (w : World) (cls : DatasetClass)
           (cycle_length block_length : Z) (r : run) : run :=
  if (cycle_length <=? 0) || (block_length <=? 0)
  then ([], Failure (OpError "cycle_length and block_length must be greater than zero"))
  else
    let '(input, input_stop) := r in
    let c := Z.to_nat cycle_length in
    let fuel := ((total_records w cls input + 2 * length input + 2) * (c + 1))%nat in
    interleave_go w cls c (Z.to_nat block_length) fuel
                  (List.repeat None c) 0%nat 0%nat input input_stop false.

(** The elements of a dataset, in the order a one-shot iterator delivers
    them, with never-ending repeats unrolled [horizon] times. *)
Fixpoint elements (w : World) (horizon : nat) (d : Dataset) : run :=
  match d with
  | ListFiles file_pattern =>
      (List.map VStr (matching_files w file_pattern), EndOfSequence)
  | Repeat d' count => repeat_run horizon count (elements w horizon d')
  | Interleave d' cls cycle_length block_length =>
      interleave_run w cls cycle_length block_length (elements w horizon d')
  | Reader cls filenames => read_files w cls filenames EndOfSequence
  | Enumerate d' =>
      let '(xs, after) := elements w horizon d' in (enumerate_from 0 xs, after)
  | Filter d' f =>
      let '(xs, after) := elements w horizon d' in filter_run f xs after
  | Map d' f _ _ =>
      let '(xs, after) := elements w horizon d' in map_run f xs after
  | Shuffle d' buffer_size => shuffle_run w buffer_size (elements w horizon d')
  | Batch d' batch_size => batch_run batch_size (elements w horizon d')
  end.

End TF.

Import TF.

(** ** The class [TFDataSet] *)

(** [task_spec]: an object with integer fields [num_workers] and [index]. *)
Record TaskSpec : Type := {
  num_workers : Z;
  index : Z
}.

(** An instance: the five attributes assigned by [__init__], the attribute
    [_size] read and written by [get_size] ([None] here when the instance has
    no such attribute, [Some None] when it holds Python's [None]), and the
    [_map] of the instance's class when a subclass overrides it: a function
    from the serialized example to the tensors for the model. *)
Record TFDataSet : Type := {
  name : string;
  data_files_pattern : string;
  dataset_class : DatasetClass;
  min_queue_examples : Z;
  shuffle_size : option Z;
  _size : option (option Z);
  map_override : option (value -> value)
}.

(** [__init__] assigns five attributes and nothing else.  (The defaults
    [TextLineDataset], [0] and [None] of its last three parameters are
    filled in by the caller.) *)
Definition __init__ (subclass_map : option (value -> value))
           (name : string) (data_files_pattern : string)
           (dataset_class : DatasetClass) (min_queue_examples : Z)
           (shuffle_size : option Z) : TFDataSet :=
  {| name := name;
     data_files_pattern := data_files_pattern;
     dataset_class := dataset_class;
     min_queue_examples := min_queue_examples;
     shuffle_size := shuffle_size;
     _size := None;
     map_override := subclass_map |}.

(** *** State and exceptions *)

(** The instance, and a record of the datasets constructed so far, oldest
    first; the record is what lets a property speak of the operators a call
    has reached. *)
Record state : Type := {
  self : TFDataSet;
  built : list Dataset
}.

Inductive outcome (A : Type) : Type :=
| Returns (a : A)
| Raises (e : exn)
| OutOfFuel.            (* a loop still running when the horizon is reached *)

Arguments Returns {A} a.
Arguments Raises {A} e.
Arguments OutOfFuel {A}.

Definition M (A : Type) : Type := state -> outcome A * state.

Definition ret {A : Type} (a : A) : M A := fun s => (Returns a, s).

Definition bind {A B : Type} (m : M A) (k : A -> M B) : M B :=
  fun s =>
    match m s with
    | (Returns a, s') => k a s'
    | (Raises e, s') => (Raises e, s')
    | (OutOfFuel, s') => (OutOfFuel, s')
    end.

Notation "x <- m ;; k" := (bind m (fun x => k))
  (at level 61, m at next level, right associativity).

Definition raise {A : Type} (e : exn) : M A := fun s => (Raises e, s).

Definition lift {A : Type} (o : outcome A) : M A := fun s => (o, s).

Definition get_self : M TFDataSet := fun s => (Returns (self s), s).

(** Reading [self._size]: an attribute never assigned does not exist. *)
Definition getattr_size : M (option Z) :=
  fun s =>
    match _size (self s) with
    | Some v => (Returns v, s)
    | None =>
        (Raises (AttributeError "'TFDataSet' object has no attribute '_size'"), s)
    end.

(** Assignment [self._size = v]. *)
Definition set_size (v : option Z) : M unit :=
  fun s =>
    (Returns tt,
     {| self := {| name := name (self s);
                   data_files_pattern := data_files_pattern (self s);
                   dataset_class := dataset_class (self s);
                   min_queue_examples := min_queue_examples (self s);
                   shuffle_size := shuffle_size (self s);
                   _size := Some v;
                   map_override := map_override (self s) |};
        built := built s |}).

(** *** Operator calls *)

Definition construct (d : Dataset) : M Dataset :=
  fun s => (Returns d, {| self := self s; built := built s ++ [d] |}).

(** [map] and [filter] call the function while the operator is built; an
    exception raised by the function leaves the call. *)
Definition tf_map (d : Dataset) (map_func : Fn)
           (num_threads output_buffer_size : option Z) : M Dataset :=
  match apply_fn map_func (placeholder d) with
  | inl e => raise e
  | inr _ => construct (Map d map_func num_threads output_buffer_size)
  end.

Definition tf_filter (d : Dataset) (predicate : Fn) : M Dataset :=
  match apply_fn predicate (placeholder d) with
  | inl e => raise e
  | inr _ => construct (Filter d predicate)
  end.

(** [dataset_class(dataset)] with a [Dataset] object as the argument: the
    reader classes of [contrib.data] convert their first argument to a
    tensor of file names, a dataset is not convertible, and the call raises
    [TypeError] without constructing anything. *)
Definition reader_over_dataset (cls : DatasetClass) (filenames : Dataset) : M Dataset :=
  raise (TypeError "Failed to convert object of type RepeatDataset to Tensor").

(** *** Sessions *)

(** The exception [sess.run] raises once the pending elements of a cursor
    are used up; none when the stream goes on. *)
Definition raised_at_end (stop : ending) : option exn :=
  match stop with
  | EndOfSequence => Some OutOfRangeError
  | Failure e => Some e
  | Beyond => None
  end.

(** The loop of [read]:
      while True: d = sess.run(filename); files.append(d)
    left through [except OutOfRangeError: pass]. *)
Fixpoint drain_filenames (pending : list value) (stop : ending)
         (files : list value) : outcome (list value) :=
  match pending with
  | d :: rest => drain_filenames rest stop (files ++ [d])
  | [] =>
      match raised_at_end stop with
      | Some OutOfRangeError => Returns files
      | Some e => Raises e
      | None => OutOfFuel
      end
  end.

(** The loop of [_count_num_records]:
      while True: sess.run(next_element); samples += 1
    left through the bare [except: pass]. *)
Fixpoint count_samples (pending : list value) (stop : ending)
         (samples : Z) : outcome Z :=
  match pending with
  | _ :: rest => count_samples rest stop (samples + 1)
  | [] =>
      match raised_at_end stop with
      | Some _ => Returns samples
      | None => OutOfFuel
      end
  end.

Section Methods.

Variable w : World.
Variable fuel : nat.       (* horizon of the streams evaluated in a session *)

(** *** [_map] *)

(** The body of [_map] in [TFDataSet]. *)
Definition _map (this : TFDataSet) (example_serialized : value) : exn + value :=
  inl (NotImplementedError "Should have implemented this").

(** [self._map]: the override of the instance's class, or else [_map]. *)
Definition bound_map (this : TFDataSet) (example_serialized : value) : exn + value :=
  match map_override this with
  | Some parse => inr (parse example_serialized)
  | None => _map this example_serialized
  end.

(** *** [read] *)

Definition read (batch_size : Z) (num_epochs : option Z) (shuffle : bool)
           (task_spec : option TaskSpec) : M NextElement :=
  this <- get_self ;;
  (* create the dataset of files with the data *)
  dataset <- construct (ListFiles (data_files_pattern this)) ;;
  (* set the number of epochs *)
  dataset <- construct (Repeat dataset num_epochs) ;;
  dataset <-
    (if shuffle then
       (* read one sample per file *)
       construct (Interleave dataset (dataset_class this) (cpu_count w + 1) 1)
     else
       (* reads files sequentially *)
       let '(pending, stop) := elements w fuel dataset in
       files <- lift (drain_filenames pending stop []) ;;
       construct (Reader (dataset_class this) files)) ;;
  dataset <-
    (match task_spec with
     | Some ts =>
         if num_workers ts >? 1 then
           (* split the dataset in shards *)
           enumerated <- construct (Enumerate dataset) ;;
           filtered <- tf_filter enumerated (filter_fn (num_workers ts) (index ts)) ;;
           tf_map filtered TakeElem None None
         else ret dataset
     | None => ret dataset
     end) ;;
  dataset <-
    (if shuffle then
       (* shuffle the samples *)
       match shuffle_size this with
       | None => raise (ValueError "shuffle_size has not been set")
       | Some buffer_size => construct (Shuffle dataset buffer_size)
       end
     else ret dataset) ;;
  (* process each example *)
  dataset <- tf_map dataset (BoundMethod (bound_map this))
                    (Some (cpu_count w + 1))
                    (Some (batch_size * cpu_count w + min_queue_examples this)) ;;
  dataset <- construct (Batch dataset batch_size) ;;
  ret (GetNext dataset).

(** *** [_count_num_records] *)

(** The two assignments to [dataset] stand before the [try]; the handler
    covers the cursor and the loop only. *)
Definition _count_num_records : M Z :=
  this <- get_self ;;
  dataset <- construct (ListFiles (data_files_pattern this)) ;;
  dataset <- construct (Repeat dataset (Some 1)) ;;
  dataset <- reader_over_dataset (dataset_class this) dataset ;;
  dataset <- construct (Repeat dataset (Some 1)) ;;
  let samples := 0 in
  let '(pending, stop) := elements w fuel dataset in
  lift (count_samples pending stop samples).

(** *** [get_size] *)

Definition get_size : M (option Z) :=
  size <- getattr_size ;;                       (* if self._size is None: *)
  _ <- match size with
       | None =>
           n <- _count_num_records ;;
           set_size (Some n)                 (* self._size = self._count_num_records() *)
       | Some _ => ret tt
       end ;;
  getattr_size.                                 (* return self._size *)

End Methods.

(** ** Vocabulary of the properties *)

(** The three operators [read] chains to shard a dataset. *)
Definition shard (d : Dataset) (ts : TaskSpec) : Dataset :=
  Map (Filter (Enumerate d) (filter_fn (num_workers ts) (index ts))) TakeElem None None.

(** The dataset leaving the sharding block of [read] when [d] enters it. *)
Definition after_shard (task_spec : option TaskSpec) (d : Dataset) : Dataset :=
  match task_spec with
  | Some ts => if num_workers ts >? 1 then shard d ts else d
  | None => d
  end.

(** Stated from the specification: the records of [xs], numbered from [i],
    whose number leaves remainder [idx] modulo [n], in stream order. *)
Fixpoint keep_index_mod (n idx : Z) (i : Z) (xs : list value) : list value :=
  match xs with
  | [] => []
  | x :: rest =>
      if i mod n =? idx
      then x :: keep_index_mod n idx (i + 1) rest
      else keep_index_mod n idx (i + 1) rest
  end.

Definition is_parse_stage (d : Dataset) : bool :=
  match d with
  | Map _ (BoundMethod _) _ _ => true
  | _ => false
  end.


Definition is_reader (d : Dataset) : bool :=
  match d with
  | Reader _ _ | Interleave _ _ _ _ => true
  | _ => false
  end.

(** The datasets constructed between state [s] and the later state [s']. *)
Definition newly_built (s s' : state) : list Dataset :=
  skipn (length (built s)) (built s').

Definition raises {A : Type} (kind : exn -> bool) (o : outcome A) : bool :=
  match o with
  | Raises e => kind e
  | _ => false
  end.

Definition is_None {A : Type} (o : option A) : bool :=
  match o with
  | None => true
  | Some _ => false
  end.

(** The five attributes assigned by the constructor. *)
Definition descriptor (this : TFDataSet)
  : string * string * DatasetClass * Z * option Z :=
  (name this, data_files_pattern this, dataset_class this,
   min_queue_examples this, shuffle_size this).


(** The file names [read] materializes when their sequence is finite. *)
Definition listed_files (w : World) (this : TFDataSet) (num_epochs : option Z)
  : list value :=
  match num_epochs with
  | Some n => cycle (Z.to_nat n) (List.map VStr (matching_files w (data_files_pattern this)))
  | None => []
  end.

(** The file-name sequence is finite: a non-negative epoch count, or no
    file matching the pattern. *)
Definition listing_is_finite (w : World) (this : TFDataSet) (num_epochs : option Z)
  : bool :=
  match num_epochs with
  | Some n => 0 <=? n
  | None => false
  end
  || match matching_files w (data_files_pattern this) with
     | [] => true
     | _ :: _ => false
     end.

(** The datasets [_count_num_records] constructs: the file listing and its
    single repetition. *)
Definition count_steps (this : TFDataSet) : list Dataset :=
  [ListFiles (data_files_pattern this);
   Repeat (ListFiles (data_files_pattern this)) (Some 1)].

(** The stages of [read], as the datasets they hand on. *)
Definition file_listing (this : TFDataSet) (num_epochs : option Z) : Dataset :=
  Repeat (ListFiles (data_files_pattern this)) num_epochs.

Definition source (w : World) (fuel : nat) (this : TFDataSet)
           (num_epochs : option Z) (shuffle : bool) : Dataset :=
  if shuffle
  then Interleave (file_listing this num_epochs) (dataset_class this) (cpu_count w + 1) 1
  else Reader (dataset_class this) (fst (elements w fuel (file_listing this num_epochs))).

Definition after_shuffle (this : TFDataSet) (shuffle : bool) (d : Dataset) : Dataset :=
  if shuffle
  then match shuffle_size this with
       | Some buffer_size => Shuffle d buffer_size
       | None => d
       end
  else d.

Definition parse_stage (w : World) (this : TFDataSet) (batch_size : Z) (d : Dataset)
  : Dataset :=
  Map d (BoundMethod (bound_map this))
      (Some (cpu_count w + 1))
      (Some (batch_size * cpu_count w + min_queue_examples this)).

Definition pipeline (w : World) (fuel : nat) (this : TFDataSet) (batch_size : Z)
           (num_epochs : option Z) (shuffle : bool) (task_spec : option TaskSpec)
  : Dataset :=
  Batch (parse_stage w this batch_size
           (after_shuffle this shuffle
              (after_shard task_spec (source w fuel this num_epochs shuffle))))
        batch_size.

(** The datasets the sharding block constructs, in order. *)
Definition shard_steps (task_spec : option TaskSpec) (d : Dataset) : list Dataset :=
  match task_spec with
  | Some ts =>
      if num_workers ts >? 1
      then [Enumerate d;
            Filter (Enumerate d) (filter_fn (num_workers ts) (index ts));
            shard d ts]
      else []
  | None => []
  end.

(** The datasets [read] constructs up to and including the sharding block. *)
Definition steps_until_shard (w : World) (fuel : nat) (this : TFDataSet)
           (num_epochs : option Z) (shuffle : bool) (task_spec : option TaskSpec)
  : list Dataset :=
  [ListFiles (data_files_pattern this);
   file_listing this num_epochs;
   source w fuel this num_epochs shuffle]
  ++ shard_steps task_spec (source w fuel this num_epochs shuffle).

Definition push (s : state) (ds : list Dataset) : state :=
  {| self := self s; built := built s ++ ds |}.


(** A parse stage carrying the given thread count and buffer size. *)
Definition parse_stage_has (num_threads output_buffer_size : Z) (d : Dataset) : bool :=
  match d with
  | Map _ (BoundMethod _) (Some t) (Some o) => (t =? num_threads) && (o =? output_buffer_size)
  | _ => false
  end.

Definition is_Returns {A : Type} (o : outcome A) : bool :=
  match o with
  | Returns _ => true
  | _ => false
  end.

Definition is_Some {A : Type} (o : option A) : bool :=
  match o with
  | Some _ => true
  | None => false
  end.

(** The task specification of worker [k] among [n]. *)
Definition worker (n : Z) (k : nat) : TaskSpec :=
  {| num_workers := n; index := Z.of_nat k |}.

(** The members of a batch. *)
Definition batch_items (v : value) : list value :=
  match v with
  | VBatch vs => vs
  | _ => []
  end.

(** Every file of the list is read to its end without failure. *)
Definition all_readable (w : World) (cls : DatasetClass) (filenames : list string)
  : bool :=
  forallb (fun f => is_None (snd (file_records w cls f))) filenames.

(** The number of records the files of the list hold, failing reads
    counted up to the failure. *)
Definition records_held (w : World) (cls : DatasetClass) (filenames : list string)
  : nat :=
  list_sum (List.map (fun f => length (fst (file_records w cls f))) filenames).

(** The records of the files of the list, file after file. *)
Definition records_of (w : World) (cls : DatasetClass) (filenames : list string)
  : list value :=
  concat (List.map (fun f => List.map VStr (fst (file_records w cls f))) filenames).

(** Bookkeeping of the interleave: the records the open slots still hold,
    the number of open slots, the records of the files not yet opened, the
    number of empty slots in a row from the current one, and the work left. *)
Definition slot_items (s : slot) : list value :=
  match s with
  | Some (xs, _) => xs
  | None => []
  end.

Definition held (slots : list slot) : list value :=
  concat (List.map slot_items slots).

Definition open_count (slots : list slot) : nat :=
  length (List.filter (fun s => negb (is_empty_slot s)) slots).

Definition ends_normally (s : slot) : Prop :=
  match s with
  | Some (_, EndOfSequence) => True
  | Some _ => False
  | None => True
  end.

Definition incoming (w : World) (cls : DatasetClass) (input : list value) : list value :=
  concat (List.map (fun f => fst (open_file w cls f)) input).

Fixpoint gap (k : nat) (c : nat) (slots : list slot) (ci : nat) : nat :=
  match k with
  | O => O
  | S k' =>
      match nth ci slots None with
      | None => S (gap k' c slots (S ci mod c)%nat)
      | Some _ => O
      end
  end.

Definition work (w : World) (cls : DatasetClass) (slots : list slot)
           (input : list value) (end_of_input : bool) : nat :=
  (length (held slots) + length (incoming w cls input) + open_count slots
   + 2 * length input + (if end_of_input then 0 else 1))%nat.

(** The ranges of the 32-bit and 64-bit integer tensors. *)
Definition fits_int32 (z : Z) : bool :=
  (- 2 ^ 31 <=? z) && (z <? 2 ^ 31).

Definition fits_int64 (z : Z) : bool :=
  (- 2 ^ 63 <=? z) && (z <? 2 ^ 63).

(** The arguments that the operators called by [read] accept without
    error: a reader class that is constructed from the file names alone
    ([FixedLengthRecordDataset] requires [record_bytes] as well), and
    integers that convert to tensors: [num_threads] is converted to a 32-bit
    integer; the epoch count, the cycle length, the operands of [filter_fn],
    the shuffle buffer size, the output buffer size and the batch size to
    64-bit integers. *)
Definition framework_accepts (w : World) (this : TFDataSet) (batch_size : Z)
           (num_epochs : option Z) (shuffle : bool) (task_spec : option TaskSpec)
  : bool :=
  match dataset_class this with
  | TextLineDataset | TFRecordDataset => true
  | FixedLengthRecordDataset => false                        (* dataset_class *)
  end
  && match num_epochs with
     | Some n => fits_int64 n                                (* repeat *)
     | None => true
     end
  && fits_int64 (cpu_count w + 1)                            (* cycle_length *)
  && match task_spec with
     | Some ts =>
         if num_workers ts >? 1
         then fits_int64 (num_workers ts) && fits_int64 (index ts)   (* filter_fn *)
         else true
     | None => true
     end
  && match shuffle_size this with
     | Some buffer_size => negb shuffle || fits_int64 buffer_size    (* shuffle *)
     | None => true
     end
  && fits_int32 (cpu_count w + 1)                            (* num_threads *)
  && fits_int64 (batch_size * cpu_count w + min_queue_examples this)
                                                             (* output_buffer_size *)
  && fits_int64 batch_size.                                  (* batch *)

(** ** Concrete inputs *)

(** Two text files of three and two lines on a four-processor host. *)
Definition demo_world : World :=
  {| cpu_count := 4;
     matching_files := fun pattern =>
       if String.eqb pattern "data/*.txt" then ["data/a.txt"; "data/b.txt"] else [];
     file_records := fun _ f =>
       if String.eqb f "data/a.txt" then (["a1"; "a2"; "a3"], None)
       else if String.eqb f "data/b.txt" then (["b1"; "b2"], None)
       else ([], Some (OpError "file not found"));
     random_draw := fun k => k |}.

(** The same host when the second file is cut short: reading it fails after
    its first line. *)
Definition faulty_world : World :=
  {| cpu_count := 4;
     matching_files := matching_files demo_world;
     file_records := fun cls f =>
       if String.eqb f "data/b.txt" then (["b1"], Some (OpError "truncated record"))
       else file_records demo_world cls f;
     random_draw := random_draw demo_world |}.

Definition demo_parse (example_serialized : value) : value :=
  VPair example_serialized (VInt 0).

(** An instance of a subclass that overrides [_map]. *)
Definition demo_dataset : TFDataSet :=
  __init__ (Some demo_parse) "demo" "data/*.txt" TextLineDataset 10 (Some 3).


Definition fresh (this : TFDataSet) : state :=
  {| self := this; built := [] |}.

Definition second_of_two : TaskSpec := {| num_workers := 2; index := 1 |}.

(** An instance whose pattern matches no file of [demo_world]. *)
Definition unmatched_dataset : TFDataSet :=
  __init__ (Some demo_parse) "demo" "none/*.txt" TextLineDataset 10 (Some 3).

(** ** Streams of the operators *)

Lemma cycle_one (xs : list value) : cycle 1 xs = xs.
Proof. simpl. apply app_nil_r. Qed.

Lemma cycle_length (n : nat) (xs : list value) :
  length (cycle n xs) = (n * length xs)%nat.
Proof.
  induction n as [| n IH]; simpl; [reflexivity|].
  rewrite length_app, IH. reflexivity.
Qed.

Lemma shard_stream (n idx : Z) (xs : list value) :
  n <> 0 ->
  forall (i : Z) (after : ending),
    (let '(kept, e) := filter_run (filter_fn n idx) (enumerate_from i xs) after in
     map_run TakeElem kept e)
    = (keep_index_mod n idx i xs, after).
Proof.
  intros Hn. induction xs as [| x rest IH]; intros i after; simpl.
  - reflexivity.
  - apply Z.eqb_neq in Hn. rewrite Hn.
    specialize (IH (i + 1) after).
    destruct (i mod n =? idx).
    + destruct (filter_run (filter_fn n idx) (enumerate_from (i + 1) rest) after)
        as [kept e].
      simpl. rewrite IH. reflexivity.
    + exact IH.
Qed.

Lemma elements_shard (w : World) (h : nat) (d : Dataset) (ts : TaskSpec) :
  num_workers ts <> 0 ->
  elements w h (shard d ts)
  = (keep_index_mod (num_workers ts) (index ts) 0 (fst (elements w h d)),
     snd (elements w h d)).
Proof.
  intros Hn. unfold shard. simpl.
  destruct (elements w h d) as [xs after]. simpl.
  apply (shard_stream _ _ xs Hn 0 after).
Qed.

(** The kept records are those at positions [idx], [idx + n], [idx + 2n], ... *)
Lemma keep_index_mod_nth (n idx : Z) (xs : list value) :
  0 < n ->
  forall (i : Z) (j : nat),
    0 <= i ->
    nth_error (keep_index_mod n idx i xs) j
    = if (0 <=? idx) && (idx <? n)
      then nth_error xs (Z.to_nat ((idx - i) mod n + Z.of_nat j * n))
      else None.
Proof.
  intros Hn. induction xs as [| x rest IH]; intros i j Hi.
  - simpl. destruct ((0 <=? idx) && (idx <? n)).
    + destruct (Z.to_nat ((idx - i) mod n + Z.of_nat j * n)); destruct j; reflexivity.
    + destruct j; reflexivity.
  - simpl. destruct (Z.eqb_spec (i mod n) idx) as [Heq | Hne].
    + assert (Hr : 0 <= idx < n) by (subst idx; apply Z.mod_pos_bound; lia).
      assert (H0 : (idx - i) mod n = 0).
      { subst idx. rewrite Zminus_mod_idemp_l, Z.sub_diag. apply Z.mod_0_l. lia. }
      replace ((0 <=? idx) && (idx <? n)) with true
        by (symmetry; apply andb_true_iff; split; [apply Z.leb_le | apply Z.ltb_lt]; lia).
      destruct j as [| j].
      * rewrite H0. reflexivity.
      * simpl nth_error at 1. rewrite (IH (i + 1) j) by lia.
        replace ((0 <=? idx) && (idx <? n)) with true
          by (symmetry; apply andb_true_iff; split; [apply Z.leb_le | apply Z.ltb_lt]; lia).
        rewrite H0.
        assert (H1 : (idx - (i + 1)) mod n = n - 1).
        { replace (idx - (i + 1)) with ((idx - i) + (-1)) by lia.
          rewrite <- Zplus_mod_idemp_l, H0. simpl.
          replace (-1) with (n - 1 + (-1) * n) by lia.
          rewrite Z.mod_add by lia. apply Z.mod_small. lia. }
        rewrite H1.
        replace (0 + Z.of_nat (S j) * n) with (Z.succ (n - 1 + Z.of_nat j * n)) by lia.
        rewrite Z2Nat.inj_succ
          by (apply Z.add_nonneg_nonneg; [lia | apply Z.mul_nonneg_nonneg; lia]).
        reflexivity.
    + rewrite (IH (i + 1) j) by lia.
      destruct ((0 <=? idx) && (idx <? n)) eqn:Hr; [| reflexivity].
      apply andb_true_iff in Hr. destruct Hr as [Hr1 Hr2].
      apply Z.leb_le in Hr1. apply Z.ltb_lt in Hr2.
      assert (Hpos : 0 < (idx - i) mod n).
      { destruct (Z.eq_dec ((idx - i) mod n) 0) as [Hz | Hz].
        - exfalso. apply Hne.
          apply Z.mod_divide in Hz; [| lia]. destruct Hz as [q Hq].
          replace i with (idx + (- q) * n) by lia.
          rewrite Z.mod_add by lia. apply Z.mod_small. lia.
        - pose proof (Z.mod_pos_bound (idx - i) n Hn). lia. }
      assert (H1 : (idx - (i + 1)) mod n = (idx - i) mod n - 1).
      { replace (idx - (i + 1)) with ((idx - i) + (-1)) by lia.
        rewrite <- Zplus_mod_idemp_l.
        pose proof (Z.mod_pos_bound (idx - i) n Hn).
        apply Z.mod_small. lia. }
      rewrite H1.
      replace ((idx - i) mod n + Z.of_nat j * n)
        with (Z.succ ((idx - i) mod n - 1 + Z.of_nat j * n)) by lia.
      rewrite Z2Nat.inj_succ
        by (apply Z.add_nonneg_nonneg; [lia | apply Z.mul_nonneg_nonneg; lia]).
      reflexivity.
Qed.

Lemma keep_index_mod_positions (n idx : Z) (xs : list value) (j : nat) :
  0 < n ->
  nth_error (keep_index_mod n idx 0 xs) j
  = if (0 <=? idx) && (idx <? n)
    then nth_error xs (Z.to_nat (idx + Z.of_nat j * n))
    else None.
Proof.
  intros Hn. rewrite (keep_index_mod_nth n idx xs Hn 0 j) by lia.
  destruct ((0 <=? idx) && (idx <? n)) eqn:Hr; [| reflexivity].
  apply andb_true_iff in Hr. destruct Hr as [Hr1 Hr2].
  apply Z.leb_le in Hr1. apply Z.ltb_lt in Hr2.
  rewrite Z.sub_0_r, Z.mod_small by lia. reflexivity.
Qed.

(** *** The shuffle buffer *)

Lemma refill_app (room : nat) :
  forall buf input : list value,
    fst (refill room buf input) ++ snd (refill room buf input) = buf ++ input.
Proof.
  induction room as [| room IH]; intros buf input; simpl.
  - reflexivity.
  - destruct input as [| x rest]; simpl.
    + reflexivity.
    + rewrite IH, <- app_assoc. reflexivity.
Qed.

Lemma refill_starved (room : nat) :
  forall buf input : list value,
    (length (fst (refill room buf input)) < length buf + room)%nat ->
    snd (refill room buf input) = [].
Proof.
  induction room as [| room IH]; intros buf input; simpl.
  - lia.
  - destruct input as [| x rest]; simpl.
    + reflexivity.
    + intros H. apply IH. rewrite length_app. simpl. lia.
Qed.

Lemma refill_bound (room : nat) :
  forall buf input : list value,
    (length (fst (refill room buf input)) <= length buf + room)%nat.
Proof.
  induction room as [| room IH]; intros buf input; simpl.
  - lia.
  - destruct input as [| x rest]; simpl.
    + lia.
    + specialize (IH (buf ++ [x]) rest). rewrite length_app in IH. simpl in IH. lia.
Qed.

Lemma remove_nth_length (xs : list value) :
  forall i : nat, (i < length xs)%nat -> length xs = S (length (remove_nth i xs)).
Proof.
  induction xs as [| x rest IH]; intros i Hi; simpl in *.
  - lia.
  - destruct i as [| i]; simpl; [reflexivity|].
    f_equal. apply IH. lia.
Qed.

Lemma pick_permutation (xs : list value) :
  forall (i : nat) (dflt : value),
    (i < length xs)%nat -> Permutation (nth i xs dflt :: remove_nth i xs) xs.
Proof.
  induction xs as [| x rest IH]; intros i dflt Hi; simpl in *.
  - lia.
  - destruct i as [| i]; simpl.
    + apply Permutation_refl.
    + eapply perm_trans; [apply perm_swap|].
      apply perm_skip. apply IH. lia.
Qed.


(** When the input ends normally, the shuffle delivers all of it. *)
Lemma shuffle_go_delivers_all (w : World) (b : nat) (n : nat) :
  (0 < b)%nat ->
  forall (k : nat) (buf input : list value),
    (length buf <= b)%nat ->
    (length buf + length input < n)%nat ->
    Permutation (fst (shuffle_go w b n k buf input EndOfSequence)) (buf ++ input)
    /\ snd (shuffle_go w b n k buf input EndOfSequence) = EndOfSequence.
Proof.
  intros Hb. induction n as [| n IH]; intros k buf input Hle Hlen; simpl.
  - lia.
  - pose proof (refill_app (b - length buf) buf input) as Happ.
    pose proof (refill_starved (b - length buf) buf input) as Hstarved.
    pose proof (refill_bound (b - length buf) buf input) as Hfit.
    destruct (refill (b - length buf) buf input) as [buf1 input1].
    simpl in Happ, Hstarved, Hfit. rewrite <- Happ.
    assert (Htotal : (length buf1 + length input1 = length buf + length input)%nat)
      by (rewrite <- !length_app, Happ; reflexivity).
    destruct buf1 as [| x0 tl] eqn:Hbuf.
    + simpl. rewrite Hstarved by (simpl; lia). split; [apply Permutation_refl | reflexivity].
    + rewrite <- Hbuf in *. cbv zeta.
      assert (Hi : (random_draw w k mod length buf1 < length buf1)%nat)
        by (apply Nat.mod_upper_bound; subst buf1; discriminate).
      pose proof (remove_nth_length buf1 _ Hi) as Hrm.
      destruct (IH (S k) (remove_nth (random_draw w k mod length buf1) buf1) input1)
        as [Hperm Hend]; [lia | lia |].
      destruct (shuffle_go w b n (S k)
                  (remove_nth (random_draw w k mod length buf1) buf1) input1
                  EndOfSequence) as [out e].
      simpl in *. split; [| exact Hend].
      apply perm_trans with
        (nth (random_draw w k mod length buf1) buf1 x0
         :: remove_nth (random_draw w k mod length buf1) buf1 ++ input1).
      * apply perm_skip. exact Hperm.
      * rewrite app_comm_cons. apply Permutation_app_tail.
        apply pick_permutation. exact Hi.
Qed.

(** ** The session loops *)

Lemma drain_filenames_spec (stop : ending) (pending : list value) :
  forall files : list value,
    drain_filenames pending stop files
    = match raised_at_end stop with
      | Some OutOfRangeError => Returns (files ++ pending)
      | Some e => Raises e
      | None => OutOfFuel
      end.
Proof.
  induction pending as [| d rest IH]; intros files; simpl.
  - rewrite app_nil_r. reflexivity.
  - rewrite IH, <- app_assoc. reflexivity.
Qed.

Lemma count_samples_spec (stop : ending) (pending : list value) :
  forall samples : Z,
    count_samples pending stop samples
    = match raised_at_end stop with
      | Some _ => Returns (samples + Z.of_nat (length pending))
      | None => OutOfFuel
      end.
Proof.
  induction pending as [| d rest IH]; intros samples.
  - simpl. rewrite Z.add_0_r. reflexivity.
  - cbn [count_samples]. rewrite IH.
    replace (samples + 1 + Z.of_nat (length rest))
      with (samples + Z.of_nat (length (d :: rest)))
      by (cbn [length]; lia).
    reflexivity.
Qed.

(** The file names listed for [read]. *)
Lemma file_names_finite (w : World) (fuel : nat) (this : TFDataSet)
      (num_epochs : option Z) :
  listing_is_finite w this num_epochs = true ->
  elements w fuel (Repeat (ListFiles (data_files_pattern this)) num_epochs)
  = (listed_files w this num_epochs, EndOfSequence).
Proof.
  unfold listing_is_finite, listed_files. cbn [elements]. unfold repeat_run.
  intros H. destruct num_epochs as [n |].
  - destruct n as [| p | p]; cbn [Z.ltb Z.compare Z.leb orb Z.to_nat] in *.
    + reflexivity.
    + reflexivity.
    + destruct (matching_files w (data_files_pattern this)); [reflexivity | discriminate].
  - destruct (matching_files w (data_files_pattern this)); [reflexivity | discriminate].
Qed.

Lemma file_names_endless (w : World) (fuel : nat) (this : TFDataSet)
      (num_epochs : option Z) :
  listing_is_finite w this num_epochs = false ->
  elements w fuel (Repeat (ListFiles (data_files_pattern this)) num_epochs)
  = (cycle fuel (List.map VStr (matching_files w (data_files_pattern this))), Beyond).
Proof.
  unfold listing_is_finite. cbn [elements]. unfold repeat_run.
  intros H. destruct num_epochs as [n |].
  - destruct n as [| p | p]; cbn [Z.ltb Z.compare Z.leb orb] in *; try discriminate.
    destruct (matching_files w (data_files_pattern this)); [discriminate | reflexivity].
  - destruct (matching_files w (data_files_pattern this)); [discriminate | reflexivity].
Qed.

(** ** [read], stage by stage *)

(** One step of a method body: the first action of the leading [bind] reads
    the instance or constructs a dataset. *)
Ltac step :=
  unfold bind at 1;
  first [unfold get_self at 1 | unfold construct at 1].

Lemma push_push (s : state) (ds ds' : list Dataset) :
  push (push s ds) ds' = push s (ds ++ ds').
Proof. unfold push. simpl. rewrite app_assoc. reflexivity. Qed.

(** The sharding block of [read]: three operators are constructed when
    [task_spec] names more than one worker, none otherwise. *)
Lemma sharding_block (task_spec : option TaskSpec) (d : Dataset) (s : state) :
  match task_spec with
  | Some ts =>
      if num_workers ts >? 1 then
        bind (construct (Enumerate d)) (fun enumerated =>
        bind (tf_filter enumerated (filter_fn (num_workers ts) (index ts))) (fun filtered =>
        tf_map filtered TakeElem None None))
      else ret d
  | None => ret d
  end s
  = (Returns (after_shard task_spec d), push s (shard_steps task_spec d)).
Proof.
  unfold after_shard, shard_steps, push.
  destruct task_spec as [ts |].
  - destruct (Z.gtb_spec (num_workers ts) 1) as [Hgt | Hle].
    + unfold bind, construct, tf_filter, tf_map, shard. simpl.
      assert (Hn : (num_workers ts =? 0) = false) by (apply Z.eqb_neq; lia).
      rewrite Hn. unfold construct. simpl. rewrite <- !app_assoc. reflexivity.
    + unfold ret. rewrite app_nil_r. destruct s; reflexivity.
  - unfold ret. rewrite app_nil_r. destruct s; reflexivity.
Qed.

(** The parse and batch stages, given the dataset that reaches them. *)
Lemma parse_and_batch (w : World) (this : TFDataSet) (batch_size : Z)
      (d : Dataset) (s : state) :
  bind (tf_map d (BoundMethod (bound_map this))
               (Some (cpu_count w + 1))
               (Some (batch_size * cpu_count w + min_queue_examples this)))
       (fun parsed =>
          bind (construct (Batch parsed batch_size))
               (fun batched => ret (GetNext batched))) s
  = match map_override this with
    | None => (Raises (NotImplementedError "Should have implemented this"), s)
    | Some _ =>
        (Returns (GetNext (Batch (parse_stage w this batch_size d) batch_size)),
         push s [parse_stage w this batch_size d;
                 Batch (parse_stage w this batch_size d) batch_size])
    end.
Proof.
  unfold bind, tf_map, parse_stage, push, apply_fn, bound_map, _map.
  destruct (map_override this) as [parse |]; simpl.
  - unfold construct, ret. simpl. rewrite <- app_assoc. reflexivity.
  - reflexivity.
Qed.

Lemma read_shuffled (w : World) (fuel : nat) (batch_size : Z)
      (num_epochs : option Z) (task_spec : option TaskSpec) (s : state) :
  read w fuel batch_size num_epochs true task_spec s
  = let this := self s in
    let s1 := push s (steps_until_shard w fuel this num_epochs true task_spec) in
    let sharded := after_shard task_spec (source w fuel this num_epochs true) in
    match shuffle_size this with
    | None => (Raises (ValueError "shuffle_size has not been set"), s1)
    | Some buffer_size =>
        match map_override this with
        | None =>
            (Raises (NotImplementedError "Should have implemented this"),
             push s1 [Shuffle sharded buffer_size])
        | Some _ =>
            (Returns (GetNext (pipeline w fuel this batch_size num_epochs true task_spec)),
             push s1 [Shuffle sharded buffer_size;
                      parse_stage w this batch_size (Shuffle sharded buffer_size);
                      pipeline w fuel this batch_size num_epochs true task_spec])
        end
    end.
Proof.
  cbv zeta.
  unfold read. do 4 step.
  unfold bind at 1.
  rewrite sharding_block.
  unfold bind at 1.
  cbn [self built].
  set (src := Interleave _ _ _ _).
  destruct (shuffle_size (self s)) as [buffer_size |] eqn:Hsize.
  - unfold construct at 1. cbn [self built push].
    rewrite parse_and_batch.
    unfold pipeline, after_shuffle, steps_until_shard, source, file_listing, push.
    rewrite Hsize. fold src. cbn [self built].
    destruct (map_override (self s)); rewrite <- ?app_assoc; reflexivity.
  - unfold raise, steps_until_shard, source, file_listing, push.
    fold src. cbn [self built]. rewrite <- ?app_assoc. reflexivity.
Qed.

Lemma read_sequential (w : World) (fuel : nat) (batch_size : Z)
      (num_epochs : option Z) (task_spec : option TaskSpec) (s : state) :
  read w fuel batch_size num_epochs false task_spec s
  = let this := self s in
    if listing_is_finite w this num_epochs then
      let s1 := push s (steps_until_shard w fuel this num_epochs false task_spec) in
      let sharded := after_shard task_spec (source w fuel this num_epochs false) in
      match map_override this with
      | None => (Raises (NotImplementedError "Should have implemented this"), s1)
      | Some _ =>
          (Returns (GetNext (pipeline w fuel this batch_size num_epochs false task_spec)),
           push s1 [parse_stage w this batch_size sharded;
                    pipeline w fuel this batch_size num_epochs false task_spec])
      end
    else
      (OutOfFuel, push s [ListFiles (data_files_pattern this); file_listing this num_epochs]).
Proof.
  cbv zeta.
  unfold read. do 3 step.
  cbn [self built].
  fold (file_listing (self s) num_epochs).
  destruct (listing_is_finite w (self s) num_epochs) eqn:Hfin.
  - pose proof (file_names_finite w fuel (self s) num_epochs Hfin) as Hnames.
    unfold file_listing in *.
    unfold steps_until_shard, pipeline, after_shuffle, source, file_listing.
    rewrite Hnames. cbn [fst snd].
    unfold bind at 1. unfold bind at 1. unfold lift at 1.
    rewrite drain_filenames_spec. cbn [raised_at_end app].
    step. cbn [self built].
    rewrite sharding_block.
    unfold bind at 1. unfold ret at 1.
    rewrite parse_and_batch.
    unfold push. cbn [self built].
    destruct (map_override (self s)); rewrite <- ?app_assoc; reflexivity.
  - pose proof (file_names_endless w fuel (self s) num_epochs Hfin) as Hnames.
    unfold file_listing in *. rewrite Hnames.
    unfold bind at 1. unfold bind at 1. unfold lift at 1.
    rewrite drain_filenames_spec. cbn [raised_at_end].
    unfold push. cbn [self built]. rewrite <- ?app_assoc. reflexivity.
Qed.

(** ** [_count_num_records] and [get_size] *)

(** [_count_num_records] leaves at the reader call of line 122, before its
    loop: it has constructed the file listing and its repetition. *)
Lemma count_num_records_run (w : World) (fuel : nat) (s : state) :
  _count_num_records w fuel s
  = (Raises (TypeError "Failed to convert object of type RepeatDataset to Tensor"),
     push s (count_steps (self s))).
Proof.
  unfold _count_num_records. do 3 step.
  unfold bind at 1. unfold reader_over_dataset, raise.
  unfold push, count_steps. cbn [self built]. rewrite <- !app_assoc. reflexivity.
Qed.

Lemma get_size_run (w : World) (fuel : nat) (s : state) :
  get_size w fuel s
  = match _size (self s) with
    | None =>
        (Raises (AttributeError "'TFDataSet' object has no attribute '_size'"), s)
    | Some None =>
        (Raises (TypeError "Failed to convert object of type RepeatDataset to Tensor"),
         push s (count_steps (self s)))
    | Some (Some n) => (Returns (Some n), s)
    end.
Proof.
  unfold get_size. unfold bind at 1. unfold getattr_size at 1.
  destruct (_size (self s)) as [[n |] |] eqn:Hsize.
  - unfold bind, ret, getattr_size. rewrite Hsize. reflexivity.
  - unfold bind at 1. unfold bind at 1. rewrite count_num_records_run. reflexivity.
  - reflexivity.
Qed.

Lemma newly_built_push (s : state) (ds : list Dataset) :
  newly_built s (push s ds) = ds.
Proof.
  unfold newly_built, push. simpl.
  rewrite skipn_app, skipn_all, Nat.sub_diag. reflexivity.
Qed.


(** [read] returns exactly when a subclass parser exists, the shuffle buffer
    is configured if shuffling, and the file listing is finite if not. *)
Lemma read_returns (w : World) (fuel : nat) (batch_size : Z) (num_epochs : option Z)
      (shuffle : bool) (task_spec : option TaskSpec) (s : state) (it : NextElement) :
  fst (read w fuel batch_size num_epochs shuffle task_spec s) = Returns it ->
  it = GetNext (pipeline w fuel (self s) batch_size num_epochs shuffle task_spec)
  /\ map_override (self s) <> None
  /\ (if shuffle then shuffle_size (self s) <> None
      else listing_is_finite w (self s) num_epochs = true).
Proof.
  destruct shuffle.
  - rewrite read_shuffled. cbv zeta.
    destruct (shuffle_size (self s)); [| discriminate].
    destruct (map_override (self s)); [| discriminate].
    cbn [fst]. intros H. injection H as <-. repeat split; discriminate.
  - rewrite read_sequential. cbv zeta.
    destruct (listing_is_finite w (self s) num_epochs); [| discriminate].
    destruct (map_override (self s)); [| discriminate].
    cbn [fst]. intros H. injection H as <-. repeat split; discriminate.
Qed.

(** ** The claims *)

(** C1.  When [read] is given a [task_spec] with [num_workers > 1], the
    pipeline it returns reads, behind the shuffle and parse stages, a
    dataset whose elements are exactly the records of the incoming stream
    whose sequential index [i] (from 0) satisfies
    [i mod num_workers = task_spec.index], in stream order and with the same
    ending: its [j]-th element is the incoming record of index
    [index + j * num_workers] when [0 <= index < num_workers], and it has no
    element otherwise.  With no [task_spec], or [num_workers <= 1], the
    dataset leaving the sharding block is the one that entered it. *)
Theorem read_shards_by_index_modulo
        (w : World) (fuel : nat) (batch_size : Z) (num_epochs : option Z)
        (shuffle : bool) (task_spec : option TaskSpec) (s : state)
        (it : NextElement) :
  fst (read w fuel batch_size num_epochs shuffle task_spec s) = Returns it ->
  let src := source w fuel (self s) num_epochs shuffle in
  let out := after_shard task_spec src in
  it = GetNext (Batch (parse_stage w (self s) batch_size
                                   (after_shuffle (self s) shuffle out))
                      batch_size)
  /\ match task_spec with
     | Some ts =>
         if num_workers ts >? 1
         then forall h : nat,
             elements w h out
             = (keep_index_mod (num_workers ts) (index ts) 0 (fst (elements w h src)),
                snd (elements w h src))
             /\ forall j : nat,
                 nth_error (fst (elements w h out)) j
                 = if (0 <=? index ts) && (index ts <? num_workers ts)
                   then nth_error (fst (elements w h src))
                                  (Z.to_nat (index ts + Z.of_nat j * num_workers ts))
                   else None
         else out = src
     | None => out = src
     end.
Proof.
  intros Hret src out. split.
  - apply read_returns in Hret. destruct Hret as [Hit _]. exact Hit.
  - subst out. unfold after_shard. destruct task_spec as [ts |]; [| reflexivity].
    destruct (Z.gtb_spec (num_workers ts) 1) as [Hgt | Hle]; [| reflexivity].
    intros h. rewrite elements_shard by lia. split; [reflexivity |].
    intros j. cbn [fst]. apply keep_index_mod_positions. lia.
Qed.

Lemma read_shards_by_index_modulo_witness :
  fst (read demo_world 0 2 (Some 1) false (Some second_of_two) (fresh demo_dataset))
  = Returns (GetNext (pipeline demo_world 0 demo_dataset 2 (Some 1) false
                               (Some second_of_two)))
  /\ elements demo_world 0
              (after_shard (Some second_of_two)
                           (source demo_world 0 demo_dataset (Some 1) false))
     = ([VStr "a2"; VStr "b1"], EndOfSequence).
Proof.
  assert (H : fst (read demo_world 0 2 (Some 1) false (Some second_of_two)
                        (fresh demo_dataset))
              = Returns (GetNext (pipeline demo_world 0 demo_dataset 2 (Some 1) false
                                           (Some second_of_two))))
    by reflexivity.
  split; [exact H |].
  destruct (read_shards_by_index_modulo _ _ _ _ _ _ _ _ H) as [_ Hshard].
  cbn [second_of_two num_workers Z.gtb Z.compare Pos.compare Pos.compare_cont] in Hshard.
  etransitivity; [exact (proj1 (Hshard 0%nat)) | reflexivity].
Defined.



(** C3.  On an instance as [__init__] leaves it, [get_size] does not compute
    a count: the attribute [_size] it tests was never assigned, and the call
    raises [AttributeError]. *)
Theorem get_size_after_init_raises
        (w : World) (fuel : nat) (subclass_map : option (value -> value))
        (name : string) (data_files_pattern : string) (dataset_class : DatasetClass)
        (min_queue_examples : Z) (shuffle_size : option Z) (constructed : list Dataset) :
  get_size w fuel
           {| self := __init__ subclass_map name data_files_pattern dataset_class
                               min_queue_examples shuffle_size;
              built := constructed |}
  = (Raises (AttributeError "'TFDataSet' object has no attribute '_size'"),
     {| self := __init__ subclass_map name data_files_pattern dataset_class
                         min_queue_examples shuffle_size;
        built := constructed |}).
Proof. reflexivity. Qed.



(** C5.  The counting loop of [_count_num_records], taken by itself, ends
    at the first exception raised by advancing the cursor, whichever it is
    (the end-of-sequence signal or any other), and yields the number of
    records advanced before it.  But no call of [_count_num_records] gets to
    its loop: the reader call of line 122, which stands before the [try],
    raises [TypeError].  The call returns no count, has constructed the file
    listing and its repetition and no reader, and leaves the instance as it
    was. *)
Theorem count_num_records_raises_before_its_loop
        (w : World) (fuel : nat) (s : state) :
  let result := _count_num_records w fuel s in
  (forall (pending : list value) (e : exn) (samples : Z),
      count_samples pending (Failure e) samples
      = Returns (samples + Z.of_nat (length pending))
      /\ count_samples pending EndOfSequence samples
         = Returns (samples + Z.of_nat (length pending)))
  /\ raises is_TypeError (fst result) = true
  /\ is_Returns (fst result) = false
  /\ newly_built s (snd result) = count_steps (self s)
  /\ existsb is_reader (newly_built s (snd result)) = false
  /\ self (snd result) = self s.
Proof.
  cbv zeta. rewrite count_num_records_run. cbn [fst snd].
  rewrite newly_built_push.
  split; [| repeat split].
  intros pending e samples. rewrite !count_samples_spec. split; reflexivity.
Qed.

(** On the demo host the call raises.  The loop alone, run on the stream of
    the host whose second file is cut short, would have given the four
    records read before the failure. *)
Example count_on_truncated_file :
  fst (_count_num_records faulty_world 0 (fresh demo_dataset))
  = Raises (TypeError "Failed to convert object of type RepeatDataset to Tensor")
  /\ elements faulty_world 0
              (Reader TextLineDataset [VStr "data/a.txt"; VStr "data/b.txt"])
     = ([VStr "a1"; VStr "a2"; VStr "a3"; VStr "b1"],
        Failure (OpError "truncated record"))
  /\ count_samples [VStr "a1"; VStr "a2"; VStr "a3"; VStr "b1"]
                   (Failure (OpError "truncated record")) 0
     = Returns 4.
Proof. split; [| split]; reflexivity. Qed.


Lemma source_sequential_finite (w : World) (fuel : nat) (this : TFDataSet)
      (num_epochs : option Z) :
  listing_is_finite w this num_epochs = true ->
  source w fuel this num_epochs false
  = Reader (dataset_class this) (listed_files w this num_epochs).
Proof.
  intros Hfin. unfold source, file_listing.
  rewrite (file_names_finite w fuel this num_epochs Hfin). reflexivity.
Qed.




Lemma steps_until_shard_build_no_parse
      (w : World) (fuel : nat) (this : TFDataSet) (num_epochs : option Z)
      (shuffle : bool) (task_spec : option TaskSpec) (check : Dataset -> bool) :
  forallb (fun d => negb (is_parse_stage d) || check d)
          (steps_until_shard w fuel this num_epochs shuffle task_spec) = true.
Proof.
  unfold steps_until_shard, shard_steps, source, file_listing.
  destruct shuffle; destruct task_spec as [ts |];
    try destruct (num_workers ts >? 1); reflexivity.
Qed.

Lemma parse_stage_has_its_configuration
      (w : World) (this : TFDataSet) (batch_size : Z) (d : Dataset) :
  parse_stage_has (cpu_count w + 1)
                  (batch_size * cpu_count w + min_queue_examples this)
                  (parse_stage w this batch_size d) = true.
Proof.
  unfold parse_stage, parse_stage_has. rewrite !Z.eqb_refl. reflexivity.
Qed.

Lemma steps_until_shard_hold_no_parse_stage
      (w : World) (fuel : nat) (this : TFDataSet) (num_epochs : option Z)
      (shuffle : bool) (task_spec : option TaskSpec) :
  List.filter is_parse_stage (steps_until_shard w fuel this num_epochs shuffle task_spec)
  = [].
Proof.
  unfold steps_until_shard, shard_steps, source, file_listing.
  destruct shuffle; destruct task_spec as [ts |];
    try destruct (num_workers ts >? 1); reflexivity.
Qed.

(** C7.  Every parse stage (a [map] of [self._map]) that a call to [read]
    constructs has [cpu_count + 1] threads and an output buffer of
    [batch_size * cpu_count + min_queue_examples]; when [read] returns, its
    pipeline is the batch stage over a parse stage with exactly these.  And
    [read] does construct it: with arguments the framework accepts,
    on an instance whose class overrides [_map], with [shuffle_size] set
    when shuffling and a finite file listing when not, the call returns the
    batch stage over a parse stage with exactly these parameters, the one
    parse stage it has constructed. *)
Theorem read_parse_stage_configuration
        (w : World) (fuel : nat) (batch_size : Z) (num_epochs : option Z)
        (shuffle : bool) (task_spec : option TaskSpec) (s : state) :
  let result := read w fuel batch_size num_epochs shuffle task_spec s in
  let num_threads := cpu_count w + 1 in
  let output_buffer_size := batch_size * cpu_count w + min_queue_examples (self s) in
  forallb (fun d => negb (is_parse_stage d)
                    || parse_stage_has num_threads output_buffer_size d)
          (newly_built s (snd result)) = true
  /\ match fst result with
     | Returns it =>
         exists d : Dataset,
           it = GetNext (Batch (Map d (BoundMethod (bound_map (self s)))
                                    (Some num_threads) (Some output_buffer_size))
                               batch_size)
     | _ => True
     end
  /\ (framework_accepts w (self s) batch_size num_epochs shuffle task_spec = true ->
      is_Some (map_override (self s))
      && (if shuffle then is_Some (shuffle_size (self s))
          else listing_is_finite w (self s) num_epochs) = true ->
      exists d : Dataset,
        fst result
        = Returns (GetNext (Batch (Map d (BoundMethod (bound_map (self s)))
                                       (Some num_threads) (Some output_buffer_size))
                                  batch_size))
        /\ List.filter is_parse_stage (newly_built s (snd result))
           = [Map d (BoundMethod (bound_map (self s)))
                  (Some num_threads) (Some output_buffer_size)]).
Proof.
  cbv zeta.
  pose proof (steps_until_shard_build_no_parse w fuel (self s) num_epochs shuffle
                task_spec
                (parse_stage_has (cpu_count w + 1)
                   (batch_size * cpu_count w + min_queue_examples (self s))))
    as Hsteps.
  pose proof (steps_until_shard_hold_no_parse_stage w fuel (self s) num_epochs shuffle
                task_spec) as Hnone.
  pose proof (parse_stage_has_its_configuration w (self s) batch_size) as Hparse.
  destruct shuffle.
  - rewrite read_shuffled. cbv zeta.
    destruct (shuffle_size (self s)) as [b |] eqn:Hsize.
    + destruct (map_override (self s)) as [parse |] eqn:Hmap.
      * rewrite push_push. cbn [fst snd]. rewrite newly_built_push.
        split; [| split].
        -- rewrite forallb_app, Hsteps. cbn [forallb is_parse_stage negb orb andb].
           rewrite Hparse. reflexivity.
        -- unfold pipeline, parse_stage. eexists. reflexivity.
        -- intros _ _. unfold pipeline, parse_stage, after_shuffle. rewrite Hsize.
           eexists. split; [reflexivity |].
           rewrite filter_app, Hnone. reflexivity.
      * rewrite push_push. cbn [fst snd]. rewrite newly_built_push.
        split; [| split; [exact I | intros _ H; discriminate H]].
        rewrite forallb_app, Hsteps. reflexivity.
    + cbn [fst snd]. rewrite newly_built_push.
      split; [exact Hsteps | split; [exact I |]].
      intros _ H. rewrite andb_false_r in H. discriminate H.
  - rewrite read_sequential. cbv zeta.
    destruct (listing_is_finite w (self s) num_epochs).
    + destruct (map_override (self s)) as [parse |] eqn:Hmap.
      * rewrite push_push. cbn [fst snd]. rewrite newly_built_push.
        split; [| split].
        -- rewrite forallb_app, Hsteps. cbn [forallb is_parse_stage negb orb andb].
           rewrite Hparse. reflexivity.
        -- unfold pipeline, parse_stage. eexists. reflexivity.
        -- intros _ _. unfold pipeline, parse_stage. eexists.
           split; [reflexivity |].
           rewrite filter_app, Hnone. reflexivity.
      * cbn [fst snd]. rewrite newly_built_push.
        split; [exact Hsteps | split; [exact I | intros _ H; discriminate H]].
    + cbn [fst snd]. rewrite newly_built_push.
      split; [reflexivity | split; [exact I |]].
      intros _ H. rewrite andb_false_r in H. discriminate H.
Qed.

Lemma read_parse_stage_configuration_witness :
  framework_accepts demo_world (self (fresh demo_dataset)) 2 (Some 1) true None = true
  /\ exists d : Dataset,
      fst (read demo_world 0 2 (Some 1) true None (fresh demo_dataset))
      = Returns (GetNext (Batch (Map d (BoundMethod (bound_map demo_dataset))
                                     (Some 5) (Some 18))
                                2))
      /\ List.filter is_parse_stage
                     (newly_built (fresh demo_dataset)
                        (snd (read demo_world 0 2 (Some 1) true None
                                   (fresh demo_dataset))))
         = [Map d (BoundMethod (bound_map demo_dataset)) (Some 5) (Some 18)].
Proof.
  split; [reflexivity |].
  exact (proj2 (proj2 (read_parse_stage_configuration
                         demo_world 0 2 (Some 1) true None (fresh demo_dataset)))
               eq_refl eq_refl).
Defined.

(** On the four-processor host, a batch size of 2 and a minimum queue size
    of 10 give 5 threads and a buffer of 18. *)
Example read_demo_configuration :
  fst (read demo_world 0 2 (Some 1) true None (fresh demo_dataset))
  = Returns
      (GetNext
         (Batch
            (Map (Shuffle (Interleave (Repeat (ListFiles "data/*.txt") (Some 1))
                                      TextLineDataset 5 1) 3)
                 (BoundMethod (bound_map demo_dataset)) (Some 5) (Some 18))
            2)).
Proof. reflexivity. Qed.

Lemma read_keeps_instance (w : World) (fuel : nat) (batch_size : Z)
      (num_epochs : option Z) (shuffle : bool) (task_spec : option TaskSpec)
      (s : state) :
  self (snd (read w fuel batch_size num_epochs shuffle task_spec s)) = self s.
Proof.
  destruct shuffle.
  - rewrite read_shuffled. cbv zeta.
    destruct (shuffle_size (self s)); [| reflexivity].
    destruct (map_override (self s)); reflexivity.
  - rewrite read_sequential. cbv zeta.
    destruct (listing_is_finite w (self s) num_epochs); [| reflexivity].
    destruct (map_override (self s)); reflexivity.
Qed.

(** C8.  Whatever its outcome, a call to [read] leaves the instance as it
    was, and a call to [get_size] leaves the five attributes set by the
    constructor (and the class of the instance) as they were: [_size] is
    the only attribute [get_size] can change. *)
Theorem read_and_get_size_keep_descriptor
        (w : World) (fuel : nat) (batch_size : Z) (num_epochs : option Z)
        (shuffle : bool) (task_spec : option TaskSpec) (s : state) :
  self (snd (read w fuel batch_size num_epochs shuffle task_spec s)) = self s
  /\ descriptor (self (snd (get_size w fuel s))) = descriptor (self s)
  /\ map_override (self (snd (get_size w fuel s))) = map_override (self s).
Proof.
  split; [apply read_keeps_instance |].
  rewrite get_size_run.
  destruct (_size (self s)) as [[n |] |]; split; reflexivity.
Qed.



Lemma shuffle_run_delivers_all (w : World) (buffer_size : Z) (xs : list value) :
  0 < buffer_size ->
  Permutation (fst (shuffle_run w buffer_size (xs, EndOfSequence))) xs
  /\ snd (shuffle_run w buffer_size (xs, EndOfSequence)) = EndOfSequence.
Proof.
  intros Hb. unfold shuffle_run.
  destruct (Z.leb_spec buffer_size 0) as [Hle | _]; [lia |].
  apply (shuffle_go_delivers_all w (Z.to_nat buffer_size) (S (length xs)));
    simpl; lia.
Qed.



(** On the demo host the interleaved stream is a1 b1 a2 b2 a3; the second of
    two workers keeps b1 and b2, and shuffles those. *)
Example demo_shard_then_shuffle :
  fst (elements demo_world 0 (source demo_world 0 demo_dataset (Some 1) true))
  = [VStr "a1"; VStr "b1"; VStr "a2"; VStr "b2"; VStr "a3"]
  /\ fst (elements demo_world 0
                   (shard (source demo_world 0 demo_dataset (Some 1) true) second_of_two))
     = [VStr "b1"; VStr "b2"]
  /\ fst (elements demo_world 0
                   (Shuffle (shard (source demo_world 0 demo_dataset (Some 1) true)
                                   second_of_two) 3))
     = [VStr "b1"; VStr "b2"].
Proof. repeat split. Qed.

(** ** Further properties *)

(** *** When [read] returns, and what [get_size] answers *)

(** X1.  With arguments the framework accepts, [read] returns
    exactly when the class of the instance overrides [_map] and, if
    shuffling, [shuffle_size] is set, or, if not shuffling, the file listing
    is finite; the handle it then returns is over the whole pipeline:
    listing, source, sharding, shuffle, parse, batch. *)
Theorem read_returns_exactly_when
        (w : World) (fuel : nat) (batch_size : Z) (num_epochs : option Z)
        (shuffle : bool) (task_spec : option TaskSpec) (s : state) :
  framework_accepts w (self s) batch_size num_epochs shuffle task_spec = true ->
  let result := fst (read w fuel batch_size num_epochs shuffle task_spec s) in
  is_Returns result
  = is_Some (map_override (self s))
    && (if shuffle then is_Some (shuffle_size (self s))
        else listing_is_finite w (self s) num_epochs)
  /\ (if is_Returns result
      then result
           = Returns (GetNext (pipeline w fuel (self s) batch_size num_epochs
                                        shuffle task_spec))
      else True).
Proof.
  intros _. cbv zeta. destruct shuffle.
  - rewrite read_shuffled. cbv zeta.
    destruct (shuffle_size (self s));
      destruct (map_override (self s)); split; reflexivity || exact I.
  - rewrite read_sequential. cbv zeta.
    destruct (listing_is_finite w (self s) num_epochs);
      destruct (map_override (self s)); split; reflexivity || exact I.
Qed.

Lemma read_returns_exactly_when_witness :
  framework_accepts demo_world (self (fresh demo_dataset)) 2 (Some 1) false None = true
  /\ fst (read demo_world 0 2 (Some 1) false None (fresh demo_dataset))
     = Returns (GetNext (pipeline demo_world 0 demo_dataset 2 (Some 1) false None)).
Proof.
  split; [reflexivity |].
  exact (proj2 (read_returns_exactly_when demo_world 0 2 (Some 1) false None
                                          (fresh demo_dataset) eq_refl)).
Defined.

(** X4.  [get_size] stores nothing: whatever its outcome, it leaves the
    instance as it was.  It returns exactly when [_size] already holds an
    integer, and then returns that integer, whatever the files are, and
    constructs nothing.  When [_size] holds [None] it raises the [TypeError]
    of [_count_num_records], so [_size] still holds [None]; when the
    attribute is missing it raises [AttributeError].  A second call, even
    under another state of the file system, has the outcome of the first. *)
Theorem get_size_returns_only_a_stored_size
        (w w' : World) (fuel fuel' : nat) (s : state) :
  let result := get_size w fuel s in
  self (snd result) = self s
  /\ is_Returns (fst result)
     = match _size (self s) with
       | Some (Some _) => true
       | _ => false
       end
  /\ match _size (self s) with
     | Some (Some stored) => result = (Returns (Some stored), s)
     | Some None => raises is_TypeError (fst result) = true
     | None => raises is_AttributeError (fst result) = true
     end
  /\ fst (get_size w' fuel' (snd result)) = fst result.
Proof.
  cbv zeta. rewrite (get_size_run w fuel s).
  destruct (_size (self s)) as [[stored |] |] eqn:Hsize; cbn [fst snd];
    rewrite get_size_run; cbn [push self]; rewrite Hsize; repeat split.
Qed.

(** With [_size] set to [None] beforehand, [get_size] still gives no count;
    with [_size] set to 7, it answers 7 on the host with five records. *)
Example get_size_on_demo_host :
  raises is_TypeError
         (fst (get_size demo_world 0 (snd (set_size None (fresh demo_dataset)))))
  = true
  /\ fst (get_size demo_world 0 (snd (set_size (Some 7) (fresh demo_dataset))))
     = Returns (Some 7).
Proof. split; reflexivity. Qed.

(** *** Shards *)

Lemma concat_map_nil (A : Type) (l : list A) :
  concat (List.map (fun _ : A => @nil value) l) = [].
Proof. induction l as [| a l IH]; simpl; auto. Qed.

(** Adding an element to one of the concatenated lists adds it to the whole. *)
Lemma concat_insert_one (f : nat -> list value) (x : value) (k0 : nat) (l : list nat) :
  NoDup l ->
  In k0 l ->
  Permutation
    (concat (List.map (fun k => if Nat.eqb k k0 then x :: f k else f k) l))
    (x :: concat (List.map f l)).
Proof.
  induction l as [| a l IH]; intros Hnd Hin; simpl in *.
  - contradiction.
  - inversion Hnd as [| a' l' Hnotin Hnd']; subst.
    destruct (Nat.eqb_spec a k0) as [-> | Hne].
    + assert (Hsame : List.map (fun k => if Nat.eqb k k0 then x :: f k else f k) l
                      = List.map f l).
      { apply map_ext_in. intros k Hk.
        destruct (Nat.eqb_spec k k0) as [-> | _]; [contradiction | reflexivity]. }
      rewrite Hsame. apply Permutation_refl.
    + destruct Hin as [Heq | Hin]; [contradiction |].
      eapply perm_trans.
      * apply Permutation_app_head. apply (IH Hnd' Hin).
      * apply Permutation_sym. apply Permutation_middle.
Qed.

Lemma keep_index_mod_partition (n : Z) (xs : list value) :
  0 < n ->
  forall i : Z,
    Permutation
      (concat (List.map (fun k => keep_index_mod n (Z.of_nat k) i xs)
                        (seq 0 (Z.to_nat n))))
      xs.
Proof.
  intros Hn. induction xs as [| x rest IH]; intros i.
  - simpl. rewrite concat_map_nil. apply Permutation_refl.
  - pose proof (Z.mod_pos_bound i n Hn) as Hmod.
    assert (Hmap : List.map (fun k => keep_index_mod n (Z.of_nat k) i (x :: rest))
                            (seq 0 (Z.to_nat n))
                   = List.map (fun k => if Nat.eqb k (Z.to_nat (i mod n))
                                        then x :: keep_index_mod n (Z.of_nat k) (i + 1) rest
                                        else keep_index_mod n (Z.of_nat k) (i + 1) rest)
                              (seq 0 (Z.to_nat n))).
    { apply map_ext. intros k. simpl.
      destruct (Z.eqb_spec (i mod n) (Z.of_nat k)) as [Heq | Hne];
        destruct (Nat.eqb_spec k (Z.to_nat (i mod n))) as [Hk | Hk];
        try reflexivity; exfalso; lia. }
    rewrite Hmap.
    eapply perm_trans.
    + apply concat_insert_one; [apply seq_NoDup |].
      apply in_seq. lia.
    + apply perm_skip. apply IH.
Qed.

(** X5.  With [n > 1] workers, the shards that the sharding block of [read]
    gives to the workers [0 .. n-1] over the same stream hold, together,
    every record of the stream exactly once: none is lost and none is given
    to two workers. *)
Theorem shards_partition_the_stream
        (w : World) (h : nat) (d : Dataset) (n : Z) :
  1 < n ->
  Permutation
    (concat (List.map (fun k => fst (elements w h (after_shard (Some (worker n k)) d)))
                      (seq 0 (Z.to_nat n))))
    (fst (elements w h d)).
Proof.
  intros Hn.
  assert (Hgt : (n >? 1) = true) by (apply Z.gtb_lt; lia).
  assert (Hmap : List.map (fun k => fst (elements w h (after_shard (Some (worker n k)) d)))
                          (seq 0 (Z.to_nat n))
                 = List.map (fun k => keep_index_mod n (Z.of_nat k) 0
                                                     (fst (elements w h d)))
                            (seq 0 (Z.to_nat n))).
  { apply map_ext. intros k. unfold after_shard. cbn [worker num_workers].
    rewrite Hgt, elements_shard by (cbn [worker num_workers]; lia). reflexivity. }
  rewrite Hmap. apply keep_index_mod_partition. lia.
Qed.

Lemma shards_partition_the_stream_witness :
  1 < 2
  /\ Permutation
       (concat (List.map
                  (fun k =>
                     fst (elements demo_world 0
                            (after_shard (Some (worker 2 k))
                               (source demo_world 0 demo_dataset (Some 1) false))))
                  (seq 0 (Z.to_nat 2))))
       (fst (elements demo_world 0 (source demo_world 0 demo_dataset (Some 1) false))).
Proof.
  split; [reflexivity |].
  exact (shards_partition_the_stream
           demo_world 0 (source demo_world 0 demo_dataset (Some 1) false) 2 eq_refl).
Defined.

Lemma length_by_nth_error (l : list value) (m : nat) :
  (forall j : nat, nth_error l j <> None <-> (j < m)%nat) ->
  length l = m.
Proof.
  intros H.
  assert (Hlen : forall j : nat, (j < length l)%nat <-> (j < m)%nat).
  { intros j. rewrite <- (H j). symmetry. apply nth_error_Some. }
  pose proof (Hlen m) as H1. pose proof (Hlen (length l)) as H2. lia.
Qed.

Lemma keep_index_mod_length (n idx : Z) (xs : list value) :
  0 < n ->
  0 <= idx < n ->
  length (keep_index_mod n idx 0 xs)
  = Z.to_nat ((Z.of_nat (length xs) + n - 1 - idx) / n).
Proof.
  intros Hn Hidx. apply length_by_nth_error. intros j.
  rewrite (keep_index_mod_positions n idx xs j Hn).
  replace ((0 <=? idx) && (idx <? n)) with true
    by (symmetry; apply andb_true_iff; split; [apply Z.leb_le | apply Z.ltb_lt]; lia).
  rewrite nth_error_Some.
  pose proof (Z.div_mod (Z.of_nat (length xs) + n - 1 - idx) n ltac:(lia)) as Hdm.
  pose proof (Z.mod_pos_bound (Z.of_nat (length xs) + n - 1 - idx) n Hn) as Hmb.
  set (q := (Z.of_nat (length xs) + n - 1 - idx) / n) in *.
  set (r := (Z.of_nat (length xs) + n - 1 - idx) mod n) in *.
  assert (Hq : 0 <= q) by nia.
  split; intros H.
  - apply Nat2Z.inj_lt. rewrite Z2Nat.id by lia.
    apply Nat2Z.inj_lt in H. rewrite Z2Nat.id in H by nia. nia.
  - apply Nat2Z.inj_lt in H. rewrite Z2Nat.id in H by lia.
    apply Nat2Z.inj_lt. rewrite Z2Nat.id by nia. nia.
Qed.

(** X6.  With [n > 1] workers and a stream of [len] records, the shard of
    worker [idx] (for [0 <= idx < n]) holds [(len + n - 1 - idx) / n]
    records; the shards of two workers differ in size by at most one
    record. *)
Theorem shard_sizes_are_balanced
        (w : World) (h : nat) (d : Dataset) (n idx idx' : Z) :
  1 < n ->
  0 <= idx < n ->
  0 <= idx' < n ->
  let len := Z.of_nat (length (fst (elements w h d))) in
  let size (i : Z) :=
    Z.of_nat (length (fst (elements w h
                (after_shard (Some {| num_workers := n; index := i |}) d)))) in
  size idx = (len + n - 1 - idx) / n
  /\ size idx - size idx' <= 1.
Proof.
  intros Hn Hidx Hidx'. cbv zeta.
  assert (Hgt : (n >? 1) = true) by (apply Z.gtb_lt; lia).
  unfold after_shard. cbn [num_workers]. rewrite Hgt.
  rewrite !elements_shard by (cbn [num_workers]; lia).
  cbn [fst num_workers index].
  rewrite !keep_index_mod_length by lia.
  set (len := Z.of_nat (length (fst (elements w h d)))).
  assert (Hlen : 0 <= len) by (subst len; lia).
  pose proof (Z.div_mod (len + n - 1 - idx) n ltac:(lia)) as Hdm.
  pose proof (Z.mod_pos_bound (len + n - 1 - idx) n ltac:(lia)) as Hmb.
  pose proof (Z.div_mod (len + n - 1 - idx') n ltac:(lia)) as Hdm'.
  pose proof (Z.mod_pos_bound (len + n - 1 - idx') n ltac:(lia)) as Hmb'.
  assert (Hq : 0 <= (len + n - 1 - idx) / n) by (apply Z.div_pos; lia).
  assert (Hq' : 0 <= (len + n - 1 - idx') / n) by (apply Z.div_pos; lia).
  rewrite !Z2Nat.id by assumption.
  split; [reflexivity |]. nia.
Qed.

Lemma shard_sizes_are_balanced_witness :
  1 < 2 /\ 0 <= 0 < 2 /\ 0 <= 1 < 2
  /\ Z.of_nat (length (fst (elements demo_world 0
         (after_shard (Some {| num_workers := 2; index := 0 |})
                      (source demo_world 0 demo_dataset (Some 1) false)))))
     = (Z.of_nat (length (fst (elements demo_world 0
                                        (source demo_world 0 demo_dataset (Some 1) false))))
        + 2 - 1 - 0) / 2.
Proof.
  split; [reflexivity |]. split; [lia |]. split; [lia |].
  exact (proj1 (shard_sizes_are_balanced
                  demo_world 0 (source demo_world 0 demo_dataset (Some 1) false)
                  2 0 1 eq_refl
                  (conj (Z.le_refl 0) eq_refl)
                  (conj (Z.le_0_1) eq_refl))).
Defined.

(** *** Epochs *)

Lemma records_of_length (w : World) (cls : DatasetClass) (filenames : list string) :
  length (records_of w cls filenames) = records_held w cls filenames.
Proof.
  unfold records_of, records_held.
  induction filenames as [| f rest IH]; simpl; [reflexivity |].
  rewrite length_app, length_map, IH. reflexivity.
Qed.

Lemma cycle_of_nothing (n : nat) : cycle n [] = [].
Proof. induction n as [| n IH]; simpl; auto. Qed.

Lemma read_files_after_readable (w : World) (cls : DatasetClass) (after : ending)
      (filenames : list string) (rest : list value) :
  all_readable w cls filenames = true ->
  read_files w cls (List.map VStr filenames ++ rest) after
  = (records_of w cls filenames ++ fst (read_files w cls rest after),
     snd (read_files w cls rest after)).
Proof.
  unfold all_readable, records_of.
  induction filenames as [| f more IH]; intros Hall; simpl in *.
  - destruct (read_files w cls rest after); reflexivity.
  - apply andb_true_iff in Hall. destruct Hall as [Hf Hmore].
    destruct (file_records w cls f) as [recs failure]. simpl in *.
    destruct failure as [e |]; [discriminate |]. simpl.
    rewrite (IH Hmore), app_assoc. reflexivity.
Qed.

Lemma read_files_epochs (w : World) (cls : DatasetClass) (filenames : list string)
      (n : nat) :
  all_readable w cls filenames = true ->
  read_files w cls (cycle n (List.map VStr filenames)) EndOfSequence
  = (cycle n (records_of w cls filenames), EndOfSequence).
Proof.
  intros Hall. induction n as [| n IH]; simpl.
  - reflexivity.
  - rewrite (read_files_after_readable _ _ _ _ _ Hall), IH. reflexivity.
Qed.

(** X8.  When every matching file is read to its end and [num_epochs] is a
    non-negative integer [n], the source of a sequential [read] delivers the
    records of the matching files, file after file in listing order, [n]
    times over, and then ends: [n] times the number of records the files
    hold in all (nothing when [n] is 0). *)
Theorem read_sequential_repeats_epochs
        (w : World) (fuel h : nat) (s : state) (n : Z) :
  all_readable w (dataset_class (self s))
               (matching_files w (data_files_pattern (self s))) = true ->
  0 <= n ->
  elements w h (source w fuel (self s) (Some n) false)
  = (cycle (Z.to_nat n)
           (records_of w (dataset_class (self s))
                       (matching_files w (data_files_pattern (self s)))),
     EndOfSequence)
  /\ Z.of_nat (length (fst (elements w h (source w fuel (self s) (Some n) false))))
     = n * Z.of_nat (records_held w (dataset_class (self s))
                                  (matching_files w (data_files_pattern (self s)))).
Proof.
  intros Hall Hn.
  assert (Hfin : listing_is_finite w (self s) (Some n) = true).
  { unfold listing_is_finite. apply orb_true_iff. left. apply Z.leb_le. exact Hn. }
  rewrite (source_sequential_finite w fuel (self s) (Some n) Hfin).
  unfold listed_files. cbn [elements].
  rewrite (read_files_epochs _ _ _ _ Hall).
  split; [reflexivity |].
  cbn [fst]. rewrite cycle_length, records_of_length, Nat2Z.inj_mul, Z2Nat.id by lia.
  reflexivity.
Qed.

Lemma read_sequential_repeats_epochs_witness :
  all_readable demo_world (dataset_class (self (fresh demo_dataset)))
               (matching_files demo_world (data_files_pattern (self (fresh demo_dataset))))
  = true
  /\ 0 <= 2
  /\ elements demo_world 0 (source demo_world 0 (self (fresh demo_dataset)) (Some 2) false)
     = ([VStr "a1"; VStr "a2"; VStr "a3"; VStr "b1"; VStr "b2";
         VStr "a1"; VStr "a2"; VStr "a3"; VStr "b1"; VStr "b2"], EndOfSequence).
Proof.
  split; [reflexivity |]. split; [discriminate |].
  exact (proj1 (read_sequential_repeats_epochs demo_world 0 0 (fresh demo_dataset) 2
                                               eq_refl (Z.le_0_2))).
Defined.

(** *** Parsing and batching *)

Lemma map_run_override (this : TFDataSet) (parse : value -> value)
      (after : ending) (xs : list value) :
  map_override this = Some parse ->
  map_run (BoundMethod (bound_map this)) xs after = (List.map parse xs, after).
Proof.
  intros Hmap. induction xs as [| x rest IH]; simpl.
  - reflexivity.
  - unfold bound_map at 1. rewrite Hmap, IH. reflexivity.
Qed.

Lemma batch_go_delivers (b : nat) :
  (0 < b)%nat ->
  forall (n : nat) (xs : list value),
    (length xs < n)%nat ->
    snd (batch_go b n xs EndOfSequence) = EndOfSequence
    /\ concat (List.map batch_items (fst (batch_go b n xs EndOfSequence))) = xs
    /\ Forall (fun v => (0 < length (batch_items v) <= b)%nat)
              (fst (batch_go b n xs EndOfSequence)).
Proof.
  intros Hb. induction n as [| n IH]; intros xs Hlen; [lia |].
  cbn [batch_go].
  destruct (Nat.ltb_spec (length xs) b) as [Hshort | Hfull].
  - destruct xs as [| x rest]; simpl.
    + repeat split. constructor.
    + rewrite app_nil_r. repeat split.
      constructor; [simpl in *; lia | constructor].
  - assert (Hskip : (length (skipn b xs) < n)%nat) by (rewrite length_skipn; lia).
    destruct (IH (skipn b xs) Hskip) as [Hend [Hcat Hall]].
    destruct (batch_go b n (skipn b xs) EndOfSequence) as [out e].
    cbn [fst snd] in *. split; [exact Hend |]. split.
    + cbn [List.map concat batch_items]. rewrite Hcat. apply firstn_skipn.
    + constructor; [| exact Hall].
      cbn [batch_items]. rewrite length_firstn. lia.
Qed.

Lemma batch_go_count (b : nat) :
  (0 < b)%nat ->
  forall (n : nat) (xs : list value),
    (length xs < n)%nat ->
    Z.of_nat (length (fst (batch_go b n xs EndOfSequence)))
    = (Z.of_nat (length xs) + Z.of_nat b - 1) / Z.of_nat b.
Proof.
  intros Hb. induction n as [| n IH]; intros xs Hlen; [lia |].
  cbn [batch_go].
  destruct (Nat.ltb_spec (length xs) b) as [Hshort | Hfull].
  - destruct xs as [| x rest].
    + cbn [fst length]. symmetry. apply Z.div_small. lia.
    + cbn [fst]. change (Z.of_nat (length [VBatch (x :: rest)])) with 1.
      apply (Z.div_unique _ _ 1 (Z.of_nat (length (x :: rest)) - 1)).
      * left. cbn [length] in *. lia.
      * lia.
  - assert (Hskip : (length (skipn b xs) < n)%nat) by (rewrite length_skipn; lia).
    pose proof (IH (skipn b xs) Hskip) as Hcount.
    destruct (batch_go b n (skipn b xs) EndOfSequence) as [out e].
    cbn [fst length] in *. rewrite length_skipn in Hcount.
    rewrite Nat2Z.inj_succ, Hcount, Nat2Z.inj_sub by lia.
    replace (Z.of_nat (length xs) + Z.of_nat b - 1)
      with (Z.of_nat (length xs) - Z.of_nat b + Z.of_nat b - 1 + 1 * Z.of_nat b) by lia.
    rewrite Z.div_add by lia. lia.
Qed.

(** X9.  Behind the batch stage of [read] nothing is lost or reordered.  On
    an instance whose class overrides [_map] with [parse], with a positive
    [batch_size], when the stream that reaches the parse stage ends normally
    after the records [ys], the pipeline of [read] ends normally too; its
    batches, laid end to end, are [parse] applied to each record of [ys] in
    order; every batch holds between 1 and [batch_size] records; and there
    are [(len + batch_size - 1) / batch_size] batches for [len] records. *)
Theorem pipeline_batches_the_parsed_records
        (w : World) (fuel h : nat) (batch_size : Z) (num_epochs : option Z)
        (shuffle : bool) (task_spec : option TaskSpec) (this : TFDataSet)
        (parse : value -> value) (ys : list value) :
  map_override this = Some parse ->
  0 < batch_size ->
  elements w h (after_shuffle this shuffle
                  (after_shard task_spec (source w fuel this num_epochs shuffle)))
  = (ys, EndOfSequence) ->
  let out := elements w h (pipeline w fuel this batch_size num_epochs shuffle task_spec) in
  snd out = EndOfSequence
  /\ concat (List.map batch_items (fst out)) = List.map parse ys
  /\ Forall (fun v => 0 < Z.of_nat (length (batch_items v)) <= batch_size) (fst out)
  /\ Z.of_nat (length (fst out))
     = (Z.of_nat (length ys) + batch_size - 1) / batch_size.
Proof.
  intros Hmap Hb Hup. cbv zeta.
  unfold pipeline, parse_stage. cbn [elements]. rewrite Hup.
  rewrite (map_run_override this parse _ _ Hmap).
  unfold batch_run. destruct (Z.leb_spec batch_size 0) as [Hle | _]; [lia |].
  assert (Hbn : (0 < Z.to_nat batch_size)%nat) by lia.
  assert (Hlen : (length (List.map parse ys) < S (length (List.map parse ys)))%nat)
    by lia.
  destruct (batch_go_delivers _ Hbn _ _ Hlen) as [Hend [Hcat Hall]].
  pose proof (batch_go_count _ Hbn _ _ Hlen) as Hcount.
  split; [exact Hend |]. split; [exact Hcat |]. split.
  - eapply Forall_impl; [| exact Hall]. intros v Hv. cbv beta in Hv. lia.
  - rewrite Hcount, length_map, Z2Nat.id by lia. reflexivity.
Qed.

Lemma pipeline_batches_the_parsed_records_witness :
  map_override demo_dataset = Some demo_parse
  /\ 0 < 2
  /\ elements demo_world 0
              (after_shuffle demo_dataset false
                 (after_shard None (source demo_world 0 demo_dataset (Some 1) false)))
     = ([VStr "a1"; VStr "a2"; VStr "a3"; VStr "b1"; VStr "b2"], EndOfSequence)
  /\ concat (List.map batch_items
               (fst (elements demo_world 0
                              (pipeline demo_world 0 demo_dataset 2 (Some 1) false None))))
     = List.map demo_parse [VStr "a1"; VStr "a2"; VStr "a3"; VStr "b1"; VStr "b2"].
Proof.
  split; [reflexivity |]. split; [reflexivity |]. split; [reflexivity |].
  exact (proj1 (proj2 (pipeline_batches_the_parsed_records
                         demo_world 0 0 2 (Some 1) false None demo_dataset demo_parse
                         [VStr "a1"; VStr "a2"; VStr "a3"; VStr "b1"; VStr "b2"]
                         eq_refl eq_refl eq_refl))).
Defined.

(** *** No matching file *)

(** X10.  When no file matches the pattern, a sequential [read] with
    arguments the framework accepts, on an instance whose class
    overrides [_map], returns whatever [num_epochs] is, [None] included (the
    listing loop meets the end-of-sequence signal at once); with a positive
    [batch_size] its pipeline delivers no batch and ends normally. *)
Theorem read_with_no_matching_file
        (w : World) (fuel h : nat) (batch_size : Z) (num_epochs : option Z)
        (task_spec : option TaskSpec) (s : state) (parse : value -> value) :
  framework_accepts w (self s) batch_size num_epochs false task_spec = true ->
  matching_files w (data_files_pattern (self s)) = [] ->
  map_override (self s) = Some parse ->
  0 < batch_size ->
  fst (read w fuel batch_size num_epochs false task_spec s)
  = Returns (GetNext (pipeline w fuel (self s) batch_size num_epochs false task_spec))
  /\ elements w h (pipeline w fuel (self s) batch_size num_epochs false task_spec)
     = ([], EndOfSequence).
Proof.
  intros _ Hnone Hmap Hb.
  assert (Hfin : listing_is_finite w (self s) num_epochs = true).
  { unfold listing_is_finite. rewrite Hnone. apply orb_true_r. }
  assert (Hfiles : listed_files w (self s) num_epochs = []).
  { unfold listed_files. rewrite Hnone.
    destruct num_epochs; [apply cycle_of_nothing | reflexivity]. }
  split.
  - rewrite read_sequential. cbv zeta. rewrite Hfin, Hmap. reflexivity.
  - unfold pipeline, parse_stage, after_shuffle.
    rewrite (source_sequential_finite w fuel (self s) num_epochs Hfin), Hfiles.
    assert (Hshard : elements w h (after_shard task_spec
                                     (Reader (dataset_class (self s)) []))
                     = ([], EndOfSequence)).
    { unfold after_shard. destruct task_spec as [ts |]; [| reflexivity].
      destruct (Z.gtb_spec (num_workers ts) 1) as [Hgt | _]; [| reflexivity].
      rewrite elements_shard by lia. reflexivity. }
    cbn [elements]. rewrite Hshard. cbn [map_run]. unfold batch_run.
    destruct (Z.leb_spec batch_size 0) as [Hle | _]; [lia |].
    cbn [batch_go length].
    destruct (Nat.ltb_spec 0 (Z.to_nat batch_size)) as [_ | Hzero]; [reflexivity | lia].
Qed.

Lemma read_with_no_matching_file_witness :
  framework_accepts demo_world (self (fresh unmatched_dataset)) 2 None false None = true
  /\ matching_files demo_world (data_files_pattern (self (fresh unmatched_dataset))) = []
  /\ map_override (self (fresh unmatched_dataset)) = Some demo_parse
  /\ 0 < 2
  /\ fst (read demo_world 0 2 None false None (fresh unmatched_dataset))
     = Returns (GetNext (pipeline demo_world 0 (self (fresh unmatched_dataset)) 2 None
                                  false None)).
Proof.
  split; [reflexivity |]. split; [reflexivity |]. split; [reflexivity |].
  split; [reflexivity |].
  exact (proj1 (read_with_no_matching_file demo_world 0 0 2 None None
                                           (fresh unmatched_dataset) demo_parse
                                           eq_refl eq_refl eq_refl eq_refl)).
Defined.

(** *** What [read] looks at *)

(** X11.  [read] opens no data file: on two hosts with the same processor
    count and the same list of files matching the pattern, a call has the
    same outcome and constructs the same datasets, whatever the files
    hold. *)
Theorem read_opens_no_data_file
        (w w' : World) (fuel : nat) (batch_size : Z) (num_epochs : option Z)
        (shuffle : bool) (task_spec : option TaskSpec) (s : state) :
  cpu_count w = cpu_count w' ->
  matching_files w (data_files_pattern (self s))
  = matching_files w' (data_files_pattern (self s)) ->
  read w fuel batch_size num_epochs shuffle task_spec s
  = read w' fuel batch_size num_epochs shuffle task_spec s.
Proof.
  intros Hcpu Hfiles. destruct shuffle.
  - rewrite !read_shuffled. cbv zeta.
    unfold steps_until_shard, pipeline, parse_stage, after_shuffle, source.
    rewrite Hcpu. reflexivity.
  - rewrite !read_sequential. cbv zeta.
    unfold listing_is_finite, steps_until_shard, pipeline, parse_stage, after_shuffle,
      source, file_listing.
    cbn [elements]. rewrite Hcpu, Hfiles. reflexivity.
Qed.

Lemma read_opens_no_data_file_witness :
  cpu_count demo_world = cpu_count faulty_world
  /\ matching_files demo_world (data_files_pattern (self (fresh demo_dataset)))
     = matching_files faulty_world (data_files_pattern (self (fresh demo_dataset)))
  /\ read demo_world 0 2 (Some 1) false None (fresh demo_dataset)
     = read faulty_world 0 2 (Some 1) false None (fresh demo_dataset).
Proof.
  split; [reflexivity |]. split; [reflexivity |].
  exact (read_opens_no_data_file demo_world faulty_world 0 2 (Some 1) false None
                                 (fresh demo_dataset) eq_refl eq_refl).
Defined.

(** *** Shuffled delivery *)

(** X12.  A shuffling [read] loses and duplicates nothing behind the
    sharding block.  On an instance whose class overrides [_map] with
    [parse], with positive [shuffle_size] and [batch_size], when the stream
    leaving the sharding block ends normally, the batches of the pipeline,
    laid end to end, are a rearrangement of [parse] applied to the records
    of that stream, and the pipeline ends normally. *)
Theorem read_shuffled_delivers_each_record_once
        (w : World) (fuel h : nat) (batch_size : Z) (num_epochs : option Z)
        (task_spec : option TaskSpec) (this : TFDataSet)
        (parse : value -> value) (buffer_size : Z) (ys : list value) :
  map_override this = Some parse ->
  shuffle_size this = Some buffer_size ->
  0 < buffer_size ->
  0 < batch_size ->
  elements w h (after_shard task_spec (source w fuel this num_epochs true))
  = (ys, EndOfSequence) ->
  let out := elements w h (pipeline w fuel this batch_size num_epochs true task_spec) in
  snd out = EndOfSequence
  /\ Permutation (concat (List.map batch_items (fst out))) (List.map parse ys).
Proof.
  intros Hmap Hsize Hbuf Hb Hup. cbv zeta.
  unfold pipeline, parse_stage, after_shuffle. rewrite Hsize.
  cbn [elements]. rewrite Hup.
  destruct (shuffle_run_delivers_all w buffer_size ys Hbuf) as [Hperm Hend].
  destruct (shuffle_run w buffer_size (ys, EndOfSequence)) as [zs e].
  cbn [fst snd] in *. subst e.
  rewrite (map_run_override this parse _ _ Hmap).
  unfold batch_run. destruct (Z.leb_spec batch_size 0) as [Hle | _]; [lia |].
  assert (Hbn : (0 < Z.to_nat batch_size)%nat) by lia.
  assert (Hlen : (length (List.map parse zs) < S (length (List.map parse zs)))%nat)
    by lia.
  destruct (batch_go_delivers _ Hbn _ _ Hlen) as [Hend [Hcat _]].
  split; [exact Hend |].
  rewrite Hcat. apply Permutation_map. exact Hperm.
Qed.

Lemma read_shuffled_delivers_each_record_once_witness :
  map_override demo_dataset = Some demo_parse
  /\ shuffle_size demo_dataset = Some 3
  /\ 0 < 3
  /\ 0 < 2
  /\ elements demo_world 0 (after_shard None (source demo_world 0 demo_dataset (Some 1) true))
     = ([VStr "a1"; VStr "b1"; VStr "a2"; VStr "b2"; VStr "a3"], EndOfSequence)
  /\ Permutation
       (concat (List.map batch_items
                  (fst (elements demo_world 0
                          (pipeline demo_world 0 demo_dataset 2 (Some 1) true None)))))
       (List.map demo_parse [VStr "a1"; VStr "b1"; VStr "a2"; VStr "b2"; VStr "a3"]).
Proof.
  split; [reflexivity |]. split; [reflexivity |]. split; [reflexivity |].
  split; [reflexivity |]. split; [reflexivity |].
  exact (proj2 (read_shuffled_delivers_each_record_once
                  demo_world 0 0 2 (Some 1) None demo_dataset demo_parse 3
                  [VStr "a1"; VStr "b1"; VStr "a2"; VStr "b2"; VStr "a3"]
                  eq_refl eq_refl eq_refl eq_refl eq_refl)).
Defined.

(** *** Shards across epochs *)

Lemma keep_index_mod_app (n idx : Z) (xs ys : list value) :
  forall i : Z,
    keep_index_mod n idx i (xs ++ ys)
    = keep_index_mod n idx i xs
      ++ keep_index_mod n idx (i + Z.of_nat (length xs)) ys.
Proof.
  induction xs as [| x rest IH]; intros i.
  - simpl. rewrite Z.add_0_r. reflexivity.
  - cbn [app keep_index_mod length]. rewrite (IH (i + 1)).
    replace (i + 1 + Z.of_nat (length rest)) with (i + Z.of_nat (S (length rest)))
      by lia.
    destruct (i mod n =? idx); reflexivity.
Qed.

Lemma keep_index_mod_shift (n idx m : Z) (xs : list value) :
  n <> 0 ->
  forall i : Z, keep_index_mod n idx (i + m * n) xs = keep_index_mod n idx i xs.
Proof.
  intros Hn. induction xs as [| x rest IH]; intros i; simpl.
  - reflexivity.
  - rewrite Z.mod_add by exact Hn.
    replace (i + m * n + 1) with (i + 1 + m * n) by lia.
    rewrite IH. reflexivity.
Qed.

Lemma keep_index_mod_cycle (n idx q : Z) (xs : list value) (k : nat) :
  n <> 0 ->
  Z.of_nat (length xs) = q * n ->
  forall c : Z,
    keep_index_mod n idx (c * n) (cycle k xs) = cycle k (keep_index_mod n idx 0 xs).
Proof.
  intros Hn Hlen. induction k as [| k IH]; intros c; simpl.
  - reflexivity.
  - rewrite keep_index_mod_app, Hlen.
    replace (c * n + q * n) with ((c + q) * n) by lia.
    rewrite IH.
    rewrite <- (keep_index_mod_shift n idx c xs Hn 0). reflexivity.
Qed.

(** X13.  [read] repeats the file listing before it numbers the records,
    so the numbering runs on across epochs.  When every matching file is
    read to its end and the number of records of one pass is a multiple of
    [num_workers], a worker of a sequential [read] over [n] epochs gets, in
    every epoch, the same records: its shard of one pass, [n] times over. *)
Theorem shard_is_the_same_in_every_epoch
        (w : World) (fuel h : nat) (s : state) (ts : TaskSpec) (n : Z) :
  1 < num_workers ts ->
  0 <= n ->
  all_readable w (dataset_class (self s))
               (matching_files w (data_files_pattern (self s))) = true ->
  Z.of_nat (records_held w (dataset_class (self s))
                         (matching_files w (data_files_pattern (self s))))
  mod num_workers ts = 0 ->
  fst (elements w h (after_shard (Some ts) (source w fuel (self s) (Some n) false)))
  = cycle (Z.to_nat n)
          (keep_index_mod (num_workers ts) (index ts) 0
             (records_of w (dataset_class (self s))
                         (matching_files w (data_files_pattern (self s))))).
Proof.
  intros Hmulti Hn Hall Hdiv.
  assert (Hgt : (num_workers ts >? 1) = true) by (apply Z.gtb_lt; lia).
  assert (Hfin : listing_is_finite w (self s) (Some n) = true).
  { unfold listing_is_finite. apply orb_true_iff. left. apply Z.leb_le. exact Hn. }
  unfold after_shard. rewrite Hgt, elements_shard by lia.
  rewrite (source_sequential_finite w fuel (self s) (Some n) Hfin).
  unfold listed_files. cbn [elements fst].
  rewrite (read_files_epochs _ _ _ _ Hall). cbn [fst].
  apply Z.mod_divide in Hdiv; [| lia]. destruct Hdiv as [q Hq].
  rewrite <- records_of_length in Hq.
  apply (keep_index_mod_cycle (num_workers ts) (index ts) q _ _ ltac:(lia) Hq 0).
Qed.

Lemma shard_is_the_same_in_every_epoch_witness :
  1 < num_workers (worker 5 1)
  /\ 0 <= 2
  /\ all_readable demo_world (dataset_class (self (fresh demo_dataset)))
                  (matching_files demo_world
                                  (data_files_pattern (self (fresh demo_dataset)))) = true
  /\ Z.of_nat (records_held demo_world (dataset_class (self (fresh demo_dataset)))
                            (matching_files demo_world
                               (data_files_pattern (self (fresh demo_dataset)))))
     mod num_workers (worker 5 1) = 0
  /\ fst (elements demo_world 0
                   (after_shard (Some (worker 5 1))
                      (source demo_world 0 (self (fresh demo_dataset)) (Some 2) false)))
     = [VStr "a2"; VStr "a2"].
Proof.
  split; [reflexivity |]. split; [discriminate |]. split; [reflexivity |].
  split; [reflexivity |].
  exact (shard_is_the_same_in_every_epoch demo_world 0 0 (fresh demo_dataset)
                                          (worker 5 1) 2 eq_refl (Z.le_0_2)
                                          eq_refl eq_refl).
Defined.

(** With five records a pass and two workers the numbering drifts: the
    first worker gets a1 a3 b2 in the first epoch and a2 b1 in the second. *)
Example shard_drifts_between_epochs :
  fst (elements demo_world 0
                (after_shard (Some (worker 2 0))
                             (source demo_world 0 demo_dataset (Some 2) false)))
  = [VStr "a1"; VStr "a3"; VStr "b2"; VStr "a2"; VStr "b1"].
Proof. reflexivity. Qed.

(** *** Interleaving *)

Section InterleaveBookkeeping.

Local Open Scope nat_scope.

Lemma set_slot_split (s : slot) (pre post : list slot) (old : slot) :
  set_slot (length pre) s (pre ++ old :: post) = pre ++ s :: post.
Proof. induction pre as [| p pre IH]; simpl; [reflexivity | now rewrite IH]. Qed.

Lemma nth_split_slot (slots : list slot) (ci : nat) :
  ci < length slots ->
  exists pre post, slots = pre ++ nth ci slots None :: post /\ length pre = ci.
Proof.
  intros H. destruct (nth_split slots None H) as [pre [post [Heq Hlen]]].
  exists pre, post. split; assumption.
Qed.

Lemma held_app (a b : list slot) : held (a ++ b) = held a ++ held b.
Proof. unfold held. now rewrite map_app, concat_app. Qed.

Lemma open_count_app (a b : list slot) : open_count (a ++ b) = open_count a + open_count b.
Proof. unfold open_count. now rewrite filter_app, length_app. Qed.

Lemma gap_le (k c : nat) (slots : list slot) : forall ci, gap k c slots ci <= k.
Proof.
  induction k as [| k IH]; intros ci; simpl; [lia |].
  destruct (nth ci slots None); [lia |]. specialize (IH (S ci mod c)). lia.
Qed.

Lemma gap_saturates (k c : nat) (slots : list slot) :
  forall ci, gap k c slots ci < k -> gap (S k) c slots ci = gap k c slots ci.
Proof.
  induction k as [| k IH]; intros ci H; [simpl in H; lia |].
  cbn [gap] in *. destruct (nth ci slots None); [reflexivity |].
  f_equal. apply IH. lia.
Qed.

Lemma gap_all_empty (k c : nat) (slots : list slot) :
  forall ci, ci < c -> gap k c slots ci = k ->
             forall d, d < k -> nth ((ci + d) mod c) slots None = None.
Proof.
  induction k as [| k IH]; intros ci Hci H d Hd; [lia |].
  cbn [gap] in H.
  destruct (nth ci slots None) eqn:Hslot; [discriminate |].
  injection H as H.
  destruct d as [| d].
  - rewrite Nat.add_0_r, Nat.mod_small by exact Hci. exact Hslot.
  - assert (Hnext : S ci mod c < c) by (apply Nat.mod_upper_bound; lia).
    specialize (IH (S ci mod c) Hnext H d ltac:(lia)).
    rewrite Nat.Div0.add_mod_idemp_l in IH.
    replace (ci + S d) with (S ci + d) by lia. exact IH.
Qed.

Lemma all_slots_empty (c : nat) (slots : list slot) (ci : nat) :
  length slots = c -> ci < c ->
  (forall d, d < c -> nth ((ci + d) mod c) slots None = None) ->
  forallb is_empty_slot slots = true.
Proof.
  intros Hlen Hci Hall. apply forallb_forall. intros s Hin.
  destruct (In_nth slots s None Hin) as [j [Hj Hnth]].
  rewrite Hlen in Hj.
  assert (Hd : (j + c - ci) mod c < c) by (apply Nat.mod_upper_bound; lia).
  specialize (Hall _ Hd).
  rewrite Nat.Div0.add_mod_idemp_r in Hall.
  replace (ci + (j + c - ci)) with (j + 1 * c) in Hall by lia.
  rewrite Nat.Div0.mod_add, Nat.mod_small in Hall by lia.
  rewrite Hall in Hnth. subst s. reflexivity.
Qed.

(** Passing over an empty slot brings the next open slot nearer. *)
Lemma gap_after_idle (c : nat) (slots : list slot) (ci : nat) :
  length slots = c -> ci < c ->
  nth ci slots None = None ->
  forallb is_empty_slot slots = false ->
  gap c c slots (S ci mod c) < gap c c slots ci.
Proof.
  intros Hlen Hci Hslot Hsome.
  destruct c as [| c']; [lia |].
  assert (Hr : gap (S c') (S c') slots ci = S (gap c' (S c') slots (S ci mod S c')))
    by (cbn [gap]; rewrite Hslot; reflexivity).
  rewrite Hr.
  assert (Hnext : S ci mod S c' < S c') by (apply Nat.mod_upper_bound; lia).
  pose proof (gap_le c' (S c') slots (S ci mod S c')) as Hle.
  destruct (Nat.eq_dec (gap c' (S c') slots (S ci mod S c')) c') as [Hfull | Hnot].
  - exfalso.
    assert (Hall : forallb is_empty_slot slots = true).
    { apply (all_slots_empty (S c') slots ci Hlen Hci).
      intros d Hd. destruct d as [| d].
      - rewrite Nat.add_0_r, Nat.mod_small by exact Hci. exact Hslot.
      - pose proof (gap_all_empty c' (S c') slots (S ci mod S c') Hnext Hfull d ltac:(lia)) as H.
        rewrite Nat.Div0.add_mod_idemp_l in H.
        replace (ci + S d) with (S ci + d) by lia. exact H. }
    congruence.
  - rewrite gap_saturates by lia. lia.
Qed.

Lemma held_cons (s : slot) (l : list slot) : held (s :: l) = slot_items s ++ held l.
Proof. reflexivity. Qed.

Lemma open_count_cons (s : slot) (l : list slot) :
  open_count (s :: l) = (if is_empty_slot s then 0 else 1) + open_count l.
Proof. unfold open_count. simpl. destruct (is_empty_slot s); reflexivity. Qed.

Lemma held_all_empty (slots : list slot) :
  forallb is_empty_slot slots = true -> held slots = [].
Proof.
  induction slots as [| s l IH]; simpl; [reflexivity |].
  intros H. apply andb_true_iff in H. destruct H as [Hs Hl].
  rewrite held_cons, (IH Hl). destruct s; [discriminate | reflexivity].
Qed.

Lemma incoming_cons (w : World) (cls : DatasetClass) (f : value) (l : list value) :
  incoming w cls (f :: l) = fst (open_file w cls f) ++ incoming w cls l.
Proof. reflexivity. Qed.

Section InterleaveRounds.

Variable w : World.
Variable cls : DatasetClass.
Variables c b : nat.
Hypothesis c_positive : 0 < c.

Lemma interleave_go_delivers_all :
  forall (fuel : nat) (slots : list slot) (ci bi : nat) (input : list value)
         (end_of_input : bool),
    length slots = c ->
    ci < c ->
    Forall ends_normally slots ->
    Forall (fun f => snd (open_file w cls f) = EndOfSequence) input ->
    (end_of_input = true -> input = []) ->
    work w cls slots input end_of_input * (c + 1) + gap c c slots ci < fuel ->
    snd (interleave_go w cls c b fuel slots ci bi input EndOfSequence end_of_input)
    = EndOfSequence
    /\ Permutation
         (fst (interleave_go w cls c b fuel slots ci bi input EndOfSequence end_of_input))
         (held slots ++ incoming w cls input).
Proof.
  induction fuel as [| fuel IH];
    intros slots ci bi input eoi Hlen Hci Hclean Hfiles Heoi Hfuel; [lia |].
  assert (Hnext : S ci mod c < c) by (apply Nat.mod_upper_bound; lia).
  cbn [interleave_go].
  destruct (eoi && forallb is_empty_slot slots) eqn:Hdone.
  - apply andb_true_iff in Hdone. destruct Hdone as [He Hempty].
    rewrite (held_all_empty _ Hempty), (Heoi He). split; [reflexivity | constructor].
  - destruct (nth_split_slot slots ci ltac:(lia)) as [pre [post [Hsplit Hpre]]].
    destruct (nth ci slots None) as [[items st] |] eqn:Hslot.
    + (* an open slot *)
      assert (Hparts : Forall ends_normally pre /\ Forall ends_normally post
                       /\ st = EndOfSequence).
      { rewrite Hsplit in Hclean. apply Forall_app in Hclean.
        destruct Hclean as [Hp Hq]. inversion Hq as [| ? ? Hcur Hpost]; subst.
        simpl in Hcur. destruct st; try contradiction. repeat split; assumption. }
      destruct Hparts as [Hcpre [Hcpost ->]].
      assert (Hsize : length pre + S (length post) = c).
      { rewrite Hsplit in Hlen. rewrite length_app in Hlen. exact Hlen. }
      assert (Hset : forall s', set_slot ci s' slots = pre ++ s' :: post).
      { intros s'. rewrite Hsplit, <- Hpre. apply set_slot_split. }
      assert (Hinv : forall s', ends_normally s' ->
                 length (pre ++ s' :: post) = c
                 /\ Forall ends_normally (pre ++ s' :: post)).
      { intros s' Hs'. split.
        - rewrite length_app. exact Hsize.
        - apply Forall_app. split; [exact Hcpre |]. constructor; assumption. }
      destruct items as [| x rest]; cbv zeta; rewrite !Hset.
      * (* exhausted: close it *)
        destruct (Hinv None I) as [Hlen' Hclean'].
        assert (Hwork : work w cls slots input eoi
                        = S (work w cls (pre ++ None :: post) input eoi)).
        { unfold work. rewrite Hsplit.
          rewrite !held_app, !open_count_app, !held_cons, !open_count_cons.
          simpl. rewrite ?length_app. simpl. lia. }
        destruct (IH (pre ++ None :: post) (S ci mod c) 0 input eoi
                     Hlen' Hnext Hclean' Hfiles Heoi) as [Hend Hperm].
        -- pose proof (gap_le c c (pre ++ None :: post) (S ci mod c)). nia.
        -- split; [exact Hend |].
           rewrite Hsplit. rewrite held_app, held_cons in *. exact Hperm.
      * (* deliver one record *)
        destruct (Hinv (Some (rest, EndOfSequence)) I) as [Hlen' Hclean'].
        assert (Hwork : work w cls slots input eoi
                        = S (work w cls (pre ++ Some (rest, EndOfSequence) :: post)
                                  input eoi)).
        { unfold work. rewrite Hsplit.
          rewrite !held_app, !open_count_app, !held_cons, !open_count_cons.
          simpl. rewrite ?length_app. simpl. rewrite ?length_app. lia. }
        assert (Hgoal : forall ci' bi', ci' < c ->
                  snd (interleave_go w cls c b fuel
                         (pre ++ Some (rest, EndOfSequence) :: post) ci' bi'
                         input EndOfSequence eoi) = EndOfSequence
                  /\ Permutation
                       (x :: fst (interleave_go w cls c b fuel
                                    (pre ++ Some (rest, EndOfSequence) :: post) ci' bi'
                                    input EndOfSequence eoi))
                       (held slots ++ incoming w cls input)).
        { intros ci' bi' Hci'.
          destruct (IH (pre ++ Some (rest, EndOfSequence) :: post) ci' bi' input eoi
                       Hlen' Hci' Hclean' Hfiles Heoi) as [Hend Hperm].
          - pose proof (gap_le c c (pre ++ Some (rest, EndOfSequence) :: post) ci'). nia.
          - split; [exact Hend |].
            rewrite Hsplit. rewrite held_app, held_cons in *.
            cbn [slot_items] in *. rewrite <- app_assoc. rewrite <- app_assoc in Hperm.
            cbn [app]. apply Permutation_cons_app. exact Hperm. }
        destruct (S bi =? b)%nat.
        -- destruct (Hgoal (S ci mod c) 0 Hnext) as [Hend Hperm].
           destruct (interleave_go w cls c b fuel _ (S ci mod c) 0 input EndOfSequence eoi)
             as [out e].
           simpl in *. split; [exact Hend | exact Hperm].
        -- destruct (Hgoal ci (S bi) Hci) as [Hend Hperm].
           destruct (interleave_go w cls c b fuel _ ci (S bi) input EndOfSequence eoi)
             as [out e].
           simpl in *. split; [exact Hend | exact Hperm].
    + (* an empty slot *)
      destruct eoi.
      * (* nothing left to open: pass on *)
        simpl in Hdone.
        pose proof (gap_after_idle c slots ci Hlen Hci Hslot Hdone) as Hdec.
        apply (IH slots (S ci mod c) 0 input true Hlen Hnext Hclean Hfiles Heoi). lia.
      * destruct input as [| f more].
        -- (* the input has ended *)
           destruct (IH slots (S ci mod c) 0 [] true Hlen Hnext Hclean Hfiles
                        (fun _ => eq_refl)) as [Hend Hperm].
           ++ pose proof (gap_le c c slots (S ci mod c)). unfold work in *. simpl in *. nia.
           ++ split; [exact Hend | exact Hperm].
        -- (* open the next file in this slot *)
           inversion Hfiles as [| ? ? Hf Hmore]; subst f more.
           rename x into f. rename l into more.
           assert (Hparts : Forall ends_normally pre /\ Forall ends_normally post).
           { rewrite Hsplit in Hclean. apply Forall_app in Hclean.
             destruct Hclean as [Hp Hq]. inversion Hq; subst. split; assumption. }
           destruct Hparts as [Hcpre Hcpost].
           assert (Hset : set_slot ci (Some (open_file w cls f)) slots
                          = pre ++ Some (open_file w cls f) :: post).
           { rewrite Hsplit, <- Hpre. apply set_slot_split. }
           rewrite Hset.
           destruct (open_file w cls f) as [recs st] eqn:Hopen. simpl in Hf. subst st.
           assert (Hwork : work w cls slots (f :: more) false
                           = S (work w cls (pre ++ Some (recs, EndOfSequence) :: post)
                                     more false)).
           { unfold work. rewrite Hsplit, incoming_cons, Hopen.
             rewrite !held_app, !open_count_app, !held_cons, !open_count_cons.
             simpl. rewrite ?length_app. simpl. rewrite ?length_app. lia. }
           destruct (IH (pre ++ Some (recs, EndOfSequence) :: post) ci bi more false)
             as [Hend Hperm].
           ++ rewrite length_app. rewrite Hsplit, length_app in Hlen. exact Hlen.
           ++ exact Hci.
           ++ apply Forall_app. split; [exact Hcpre |]. constructor; [exact I | exact Hcpost].
           ++ exact Hmore.
           ++ discriminate.
           ++ pose proof (gap_le c c (pre ++ Some (recs, EndOfSequence) :: post) ci). nia.
           ++ split; [exact Hend |].
              eapply perm_trans; [exact Hperm |].
              rewrite Hsplit, incoming_cons, Hopen.
              rewrite !held_app, !held_cons. cbn [slot_items fst app].
              rewrite <- !app_assoc. apply Permutation_app_head.
              rewrite !app_assoc. apply Permutation_app_tail.
              apply Permutation_app_comm.
Qed.

End InterleaveRounds.

End InterleaveBookkeeping.

Lemma incoming_app (w : World) (cls : DatasetClass) (xs ys : list value) :
  incoming w cls (xs ++ ys) = incoming w cls xs ++ incoming w cls ys.
Proof. unfold incoming. rewrite map_app, concat_app. reflexivity. Qed.

Lemma incoming_names (w : World) (cls : DatasetClass) (filenames : list string) :
  incoming w cls (List.map VStr filenames) = records_of w cls filenames.
Proof.
  unfold incoming, records_of.
  induction filenames as [| f rest IH]; simpl; [reflexivity |].
  rewrite IH. destruct (file_records w cls f); reflexivity.
Qed.

Lemma incoming_cycle (w : World) (cls : DatasetClass) (xs : list value) (n : nat) :
  incoming w cls (cycle n xs) = cycle n (incoming w cls xs).
Proof.
  induction n as [| n IH]; simpl; [reflexivity |].
  rewrite incoming_app, IH. reflexivity.
Qed.

Lemma total_records_incoming (w : World) (cls : DatasetClass) (input : list value) :
  total_records w cls input = length (incoming w cls input).
Proof.
  unfold total_records, incoming.
  induction input as [| f rest IH]; simpl; [reflexivity |].
  rewrite length_app, IH. reflexivity.
Qed.

Lemma readable_files_end_normally (w : World) (cls : DatasetClass)
      (filenames : list string) :
  all_readable w cls filenames = true ->
  Forall (fun f => snd (open_file w cls f) = EndOfSequence) (List.map VStr filenames).
Proof.
  unfold all_readable. induction filenames as [| f rest IH]; intros Hall; simpl in *.
  - constructor.
  - apply andb_true_iff in Hall. destruct Hall as [Hf Hrest].
    constructor; [| exact (IH Hrest)].
    unfold open_file.
    destruct (file_records w cls f) as [recs [e |]]; [discriminate | reflexivity].
Qed.

Lemma Forall_cycle (P : value -> Prop) (xs : list value) (n : nat) :
  Forall P xs -> Forall P (cycle n xs).
Proof.
  intros H. induction n as [| n IH]; simpl; [constructor |].
  apply Forall_app. split; assumption.
Qed.

Lemma no_slot_holds_anything (c : nat) :
  held (List.repeat None c) = [] /\ open_count (List.repeat None c) = 0%nat
  /\ Forall ends_normally (List.repeat None c).
Proof.
  induction c as [| c [Hheld [Hopen Hends]]]; simpl.
  - repeat split. constructor.
  - split; [exact Hheld |]. split; [exact Hopen |]. constructor; [exact I | exact Hends].
Qed.

(** When every file is read to its end, the interleave delivers every
    record of every file once and then ends. *)
Lemma interleave_run_delivers_all (w : World) (cls : DatasetClass)
      (cycle_length block_length : Z) (input : list value) :
  0 < cycle_length ->
  0 < block_length ->
  Forall (fun f => snd (open_file w cls f) = EndOfSequence) input ->
  snd (interleave_run w cls cycle_length block_length (input, EndOfSequence))
  = EndOfSequence
  /\ Permutation
       (fst (interleave_run w cls cycle_length block_length (input, EndOfSequence)))
       (incoming w cls input).
Proof.
  intros Hc Hb Hfiles. unfold interleave_run.
  destruct (Z.leb_spec cycle_length 0) as [Hle | _]; [lia |].
  destruct (Z.leb_spec block_length 0) as [Hle | _]; [lia |].
  cbn [orb].
  destruct (no_slot_holds_anything (Z.to_nat cycle_length)) as [Hheld [Hopen Hends]].
  assert (Hpos : (0 < Z.to_nat cycle_length)%nat) by lia.
  replace (incoming w cls input)
    with (held (List.repeat None (Z.to_nat cycle_length)) ++ incoming w cls input)
    by (rewrite Hheld; reflexivity).
  apply (interleave_go_delivers_all w cls (Z.to_nat cycle_length)
           (Z.to_nat block_length) Hpos).
  - apply repeat_length.
  - exact Hpos.
  - exact Hends.
  - exact Hfiles.
  - discriminate.
  - pose proof (gap_le (Z.to_nat cycle_length) (Z.to_nat cycle_length)
                       (List.repeat None (Z.to_nat cycle_length)) 0%nat) as Hgap.
    unfold work. rewrite Hheld, Hopen, total_records_incoming. cbn [length]. nia.
Qed.

(** X14.  A shuffling [read] reads every record.  On a host with at least
    one processor, when every matching file is read to its end and
    [num_epochs] is a non-negative integer [n], the interleaved source of
    [read] delivers every record of every matching file [n] times, in some
    order, and then ends. *)
Theorem read_shuffled_source_reads_every_record
        (w : World) (fuel h : nat) (s : state) (n : Z) :
  0 < cpu_count w ->
  0 <= n ->
  all_readable w (dataset_class (self s))
               (matching_files w (data_files_pattern (self s))) = true ->
  snd (elements w h (source w fuel (self s) (Some n) true)) = EndOfSequence
  /\ Permutation
       (fst (elements w h (source w fuel (self s) (Some n) true)))
       (cycle (Z.to_nat n)
              (records_of w (dataset_class (self s))
                          (matching_files w (data_files_pattern (self s))))).
Proof.
  intros Hcpu Hn Hall.
  assert (Hfin : listing_is_finite w (self s) (Some n) = true).
  { unfold listing_is_finite. apply orb_true_iff. left. apply Z.leb_le. exact Hn. }
  unfold source. cbn [elements].
  fold (file_listing (self s) (Some n)).
  unfold file_listing at 1 2.
  rewrite (file_names_finite w h (self s) (Some n) Hfin). unfold listed_files.
  rewrite <- incoming_names, <- incoming_cycle.
  apply interleave_run_delivers_all; [lia | lia |].
  apply Forall_cycle. apply readable_files_end_normally. exact Hall.
Qed.

Lemma read_shuffled_source_reads_every_record_witness :
  0 < cpu_count demo_world
  /\ 0 <= 2
  /\ all_readable demo_world (dataset_class (self (fresh demo_dataset)))
                  (matching_files demo_world
                                  (data_files_pattern (self (fresh demo_dataset)))) = true
  /\ snd (elements demo_world 0 (source demo_world 0 (self (fresh demo_dataset))
                                        (Some 2) true))
     = EndOfSequence.
Proof.
  split; [reflexivity |]. split; [discriminate |]. split; [reflexivity |].
  exact (proj1 (read_shuffled_source_reads_every_record
                  demo_world 0 0 (fresh demo_dataset) 2 eq_refl (Z.le_0_2) eq_refl)).
Defined.
